(** * vramfs: the device block pool and the path index

    A shallow embedding of [src/memory.cpp] (namespace [vram::memory]: the
    pool of device buffers and the [block] class) and of the index part of
    the file system front end ([index_find], [vram_init], [vram_getattr],
    [vram_open]).

    Conventions.
    - [size_t] is 64 bits wide and unsigned, [int] is 32 bits wide and
      signed, [int64_t] and [off_t] are 64 bits wide and signed (LP64).
      Values are kept in [Z]; every conversion the source performs is
      written out with [to_size_t] or [to_int].
    - The OpenCL device is outside the program.  It is modelled as a value
      that records every call made to it together with the status it
      answered, and that carries a script of the statuses the coming calls
      will answer, so that every failure pattern can be expressed.  The
      command queue is in-order, therefore the effect of an accepted command
      on device memory is applied at once.
    - The relational index is a table, modelled as the list of its rows in
      enumeration order. *)

From Stdlib Require Import ZArith List Lia Bool String Ascii Strings.Byte.
Import ListNotations.
Local Open Scope Z_scope.

(** ** Machine integers *)

Definition INT_MAX : Z := 2147483647.
Definition SIZE_MAX : Z := 18446744073709551615.

(** Conversion to [size_t]: reduction modulo 2^64. *)
Definition to_size_t (z : Z) : Z := z mod 2 ^ 64.

(** Conversion to [int]: the low 32 bits, read in two's complement. *)
Definition to_int (z : Z) : Z := (z + 2 ^ 31) mod 2 ^ 32 - 2 ^ 31.

(** ** The OpenCL device *)

Module Device.

(** A [cl::Buffer] is a handle; the device numbers the buffers it creates. *)
Definition cl_Buffer : Type := nat.

(** A [cl::Event] is a handle on one accepted command: its position in the
    list of calls.  The default-constructed event is null ([None]). *)
Definition cl_Event : Type := option nat.

Definition cl_int : Type := Z.
Definition CL_SUCCESS : cl_int := 0.
Definition CL_INVALID_VALUE : cl_int := -30.

Inductive command : Type :=
| CreateBuffer (size : Z)
| FillBuffer (buf : cl_Buffer) (offset size : Z)
| CopyBuffer (src dst : cl_Buffer) (src_offset dst_offset size : Z)
| ReadBuffer (buf : cl_Buffer) (blocking : bool) (offset size : Z)
| WriteBuffer (buf : cl_Buffer) (blocking : bool) (offset size : Z)
              (data : list byte).

Definition memory : Type := cl_Buffer -> Z -> byte.

Record device : Type := {
  contents : memory;                  (* bytes held by each buffer *)
  next_buffer : cl_Buffer;            (* handle of the next created buffer *)
  issued : list (command * cl_int);   (* every call so far, oldest first *)
  faults : list cl_int;               (* statuses of the coming calls *)
  callbacks : list (nat * list byte)  (* completion callbacks with their
                                         private host copy *)
}.

(** The status the [k]-th coming call answers; a script that has run out
    answers [CL_SUCCESS]. *)
Definition status_at (k : nat) (d : device) : cl_int :=
  nth k (faults d) CL_SUCCESS.

(** One call to the device.  A call whose region is out of bounds is
    rejected with [CL_INVALID_VALUE]; otherwise the script decides.  Only
    an accepted call changes device memory. *)
Definition call (c : command) (valid : bool) (effect : memory -> memory)
           (fresh : nat) (d : device) : cl_int * device :=
  let r := if valid then status_at 0 d else CL_INVALID_VALUE in
  let ok := r =? CL_SUCCESS in
  (r, {| contents := if ok then effect (contents d) else contents d;
         next_buffer := if ok then (fresh + next_buffer d)%nat
                        else next_buffer d;
         issued := issued d ++ [(c, r)];
         faults := if valid then tl (faults d) else faults d;
         callbacks := callbacks d |}).

(** The event of the call just made: null when it was refused. *)
Definition event_of (r : cl_int) (before : device) : cl_Event :=
  if r =? CL_SUCCESS then Some (List.length (issued before)) else None.

Definition zero : byte := x00.

(** [region offset size p]: byte [p] lies in [offset, offset + size). *)
Definition region (offset size p : Z) : bool :=
  (offset <=? p) && (p <? offset + size).

Definition fill (buf : cl_Buffer) (offset size : Z) (m : memory) : memory :=
  fun b p => if Nat.eqb b buf && region offset size p then zero else m b p.

Definition copy (src dst : cl_Buffer) (src_offset dst_offset size : Z)
           (m : memory) : memory :=
  fun b p => if Nat.eqb b dst && region dst_offset size p
             then m src (p - dst_offset + src_offset) else m b p.

Definition store (buf : cl_Buffer) (offset size : Z) (data : list byte)
           (m : memory) : memory :=
  fun b p => if Nat.eqb b buf && region offset size p
             then nth (Z.to_nat (p - offset)) data zero else m b p.

Definition load (buf : cl_Buffer) (offset size : Z) (m : memory) : list byte :=
  map (fun k => m buf (offset + Z.of_nat k)) (seq 0 (Z.to_nat size)).

(** Host memory: [bytes] written at the start of the area [data]. *)
Definition overwrite (data bytes : list byte) : list byte :=
  bytes ++ skipn (List.length bytes) data.

Section Calls.
(** Every buffer of the program has the same size. *)
Variable buffer_size : Z.

Definition in_bounds (offset size : Z) : bool :=
  (0 <=? offset) && (0 <=? size) && (offset + size <=? buffer_size).

(** [cl::Buffer buf(context, flags, size, nullptr, &r)] *)
Definition createBuffer (size : Z) (d : device)
    : cl_int * cl_Buffer * device :=
  let '(r, d') := call (CreateBuffer size) true (fun m => m) 1 d in
  (r, next_buffer d, d').

Definition enqueueFillBuffer (buf : cl_Buffer) (offset size : Z) (d : device)
  : cl_int * device :=
  call (FillBuffer buf offset size) (in_bounds offset size)
       (fill buf offset size) 0 d.

Definition enqueueCopyBuffer (src dst : cl_Buffer)
           (src_offset dst_offset size : Z) (d : device)
  : cl_int * device :=
  call (CopyBuffer src dst src_offset dst_offset size)
       (in_bounds src_offset size && in_bounds dst_offset size)
       (copy src dst src_offset dst_offset size) 0 d.

(** The bytes read land in the host area [data] when the call is
    accepted; a refused call leaves the area as it was. *)
Definition enqueueReadBuffer (buf : cl_Buffer) (blocking : bool)
           (offset size : Z) (data : list byte) (d : device)
  : cl_int * list byte * device :=
  let '(r, d') := call (ReadBuffer buf blocking offset size)
                       (in_bounds offset size) (fun m => m) 0 d in
  (r,
   if r =? CL_SUCCESS
   then overwrite data (load buf offset size (contents d)) else data,
   d').

Definition enqueueWriteBuffer (buf : cl_Buffer) (blocking : bool)
           (offset size : Z) (data : list byte) (d : device)
  : cl_int * cl_Event * device :=
  let '(r, d') := call (WriteBuffer buf blocking offset size data)
                       (in_bounds offset size)
                       (store buf offset size data) 0 d in
  (r, event_of r d, d').

(** [event.setCallback(CL_COMPLETE, f, data)]: refused on a null event. *)
Definition setCallback (e : cl_Event) (data : list byte) (d : device)
  : device :=
  match e with
  | None => d
  | Some n =>
      {| contents := contents d; next_buffer := next_buffer d;
         issued := issued d; faults := faults d;
         callbacks := callbacks d ++ [(n, data)] |}
  end.
End Calls.

End Device.

(** ** The block pool and the blocks ([namespace vram::memory]) *)

Module Memory.
Import Device.

(** The globals of the namespace.  [context], [device] and [queue] are the
    connection to the device and are carried by [queue]. *)
Record state : Type := {
  has_fillbuffer : bool;
  zero_buffer : cl_Buffer;
  queue : device;
  pool : list cl_Buffer;     (* std::vector, back of the vector last *)
  total_blocks : Z
}.

Definition set_queue (d : device) (st : state) : state :=
  {| has_fillbuffer := has_fillbuffer st; zero_buffer := zero_buffer st;
     queue := d; pool := pool st; total_blocks := total_blocks st |}.

Definition set_pool (p : list cl_Buffer) (st : state) : state :=
  {| has_fillbuffer := has_fillbuffer st; zero_buffer := zero_buffer st;
     queue := queue st; pool := p; total_blocks := total_blocks st |}.

Definition set_total_blocks (n : Z) (st : state) : state :=
  {| has_fillbuffer := has_fillbuffer st; zero_buffer := zero_buffer st;
     queue := queue st; pool := pool st; total_blocks := n |}.

(** The members of [class block].  The class is declared in [memory.hpp];
    the members are the ones [memory.cpp] reads and writes. *)
Record block : Type := {
  buffer : cl_Buffer;
  dirty : bool;
  last_write : cl_Event
}.

(** Modelled from the spec: the default member initialisers of [block],
    which [memory.hpp] holds and the constructor in [memory.cpp] relies on.
    "A freshly constructed Block starts dirty"; no write is pending. *)
Definition dirty_default : bool := true.
Definition last_write_default : cl_Event := None.

Section WithBlockSize.
(** [block::size], a compile-time constant of [memory.hpp], which is not
    among the sources at hand: it is a parameter.  Products and quotients
    with it are taken in [size_t], the type of the other operand or of the
    result in [increase_pool]. *)
Variable block_size : Z.

Definition clear_buffer (buf : cl_Buffer) (st : state) : cl_int * state :=
  let '(r, d) :=
    if has_fillbuffer st
    then enqueueFillBuffer block_size buf 0 block_size (queue st)
    else enqueueCopyBuffer block_size (zero_buffer st) buf 0 0 block_size
                           (queue st) in
  (r, set_queue d st).

Definition pool_size (st : state) : Z := total_blocks st.

Definition pool_available (st : state) : Z :=
  to_int (Z.of_nat (List.length (pool st))).

(** [int block_count = 1 + (size - 1) / block::size;] with [size] a
    [size_t]: the arithmetic is unsigned, the result is narrowed. *)
Definition block_count (size : Z) : Z :=
  to_int (to_size_t (1 + to_size_t (size - 1) / block_size)).

(** The [for] loop of [increase_pool]: [remaining] iterations are left
    and the loop variable is [i]. *)
Fixpoint increase_pool_loop (remaining : nat) (i count : Z) (st : state)
  : Z * state :=
  match remaining with
  | O => (to_size_t (count * block_size), st)
  | S remaining' =>
      let '(r, buf, d) := createBuffer block_size (queue st) in
      let st1 := set_queue d st in
      if r =? CL_SUCCESS then
        let '(r', st2) := clear_buffer buf st1 in
        if r' =? CL_SUCCESS then
          increase_pool_loop remaining' (i + 1) count
            (set_total_blocks (to_int (total_blocks st2 + 1))
               (set_pool (pool st2 ++ [buf]) st2))
        else (to_size_t (i * block_size), st2)
      else (to_size_t (i * block_size), st1)
  end.

Definition increase_pool (size : Z) (st : state) : Z * state :=
  let count := block_count size in
  increase_pool_loop (Z.to_nat count) 0 count st.

(** [block::block()]: takes the back of the pool. *)
Definition block_new (st : state) : block * state :=
  ({| buffer := last (pool st) O;
      dirty := dirty_default;
      last_write := last_write_default |},
   set_pool (removelast (pool st)) st).

(** [block::~block()] *)
Definition block_delete (b : block) (st : state) : state :=
  set_pool (pool st ++ [buffer b]) st.

(** [allocate()]: [None] is the null [block_ref]. *)
Definition allocate (st : state) : option block * state :=
  if negb (Z.of_nat (List.length (pool st)) =? 0) then
    let '(b, st') := block_new st in (Some b, st')
  else (None, st).

(** [block::read]: returns the host area [data] after the call. *)
Definition read (b : block) (offset size : Z) (data : list byte)
           (st : state) : list byte * state :=
  if dirty b then
    (overwrite data (repeat zero (Z.to_nat size)), st)
  else
    let '(_, data', d) :=
      enqueueReadBuffer block_size (buffer b) true (to_size_t offset) size
                        data (queue st) in
    (data', set_queue d st).

(** [block::write]: the device is handed the first [size] bytes of
    [data]; in asynchronous mode these are a private copy that the
    completion callback frees. *)
Definition write (b : block) (offset size : Z) (data : list byte)
           (async : bool) (st : state) : block * state :=
  let st1 :=
    if dirty b && negb (size =? block_size)
    then snd (clear_buffer (buffer b) st) else st in
  let payload := firstn (Z.to_nat size) data in
  let '(_, event, d) :=
    enqueueWriteBuffer block_size (buffer b) (negb async)
                       (to_size_t offset) size payload (queue st1) in
  let d' := if async then setCallback event payload d else d in
  ({| buffer := buffer b; dirty := false; last_write := event |},
   set_queue d' st1).
End WithBlockSize.

End Memory.

(** ** The path index and the file system operations *)

Module Index.

(** Constants of the system headers ([errno.h], [fcntl.h], [sys/stat.h]). *)
Definition ENOENT : Z := 2.
Definition EAGAIN : Z := 11.
Definition EACCES : Z := 13.
Definition ENOTDIR : Z := 20.
Definition EISDIR : Z := 21.
Definition O_RDONLY : Z := 0.
Definition S_IFDIR : Z := 16384.   (* 0040000 *)
Definition S_IFREG : Z := 32768.   (* 0100000 *)

Definition ROOT_PARENT : Z := 0.
Definition ROOT_ENTRY : Z := 1.

(** One row of the table [entries]. *)
Record row : Type := {
  id : Z;
  parent : Z;
  name : string;
  dir : Z;
  size : Z;
  atime : Z;
  mtime : Z;
  ctime : Z
}.

Definition table : Type := list row.

(** What [index_open] answers: a connection to the shared store.  [None]
    stands for a store on which no query on [entries] can be prepared (the
    connection is null or the table was never created). *)
Definition sqlite_handle : Type := option table.

(** [entry_filter::entry_filter_t], declared in [types.hpp]. *)
Module entry_filter.
Inductive entry_filter_t : Type := all | directory | file.
End entry_filter.
Import entry_filter.

(** What the operations do besides returning: the rows they ask the store
    for, and the fatal errors they raise. *)
Inductive event : Type :=
| Lookup (parent : Z) (name : string)
| FatalError (message : string).

(** [sqlite3_column_int] narrows the 64-bit column to [int];
    [sqlite3_column_int64] does not. *)
Definition sqlite3_column_int (v : Z) : Z := to_int v.
Definition sqlite3_column_int64 (v : Z) : Z := v.

(** The [int] read from column [dir], converted to [bool]. *)
Definition is_dir (r : row) : bool :=
  negb (sqlite3_column_int (dir r) =? 0).

(** SELECT id, dir FROM entries WHERE parent = ? AND name = ? LIMIT 1 *)
Definition select_entry (t : table) (p : Z) (n : string) : option row :=
  find (fun r => (parent r =? p) && String.eqb (name r) n) t.

(** SELECT dir, size, atime, mtime, ctime FROM entries WHERE id = ? *)
Definition select_by_id (t : table) (i : Z) : option row :=
  find (fun r => id r =? i) t.

(** [getline(stream, part, '/')] on a stream that is not at its end: the
    characters up to the first separator, and the stream after it. *)
Fixpoint getline (stream : string) : string * string :=
  match stream with
  | EmptyString => (EmptyString, EmptyString)
  | String c rest =>
      if Ascii.eqb c "/"%char then (EmptyString, rest)
      else let '(part, stream') := getline rest in (String c part, stream')
  end.

(** The parts that the successive calls of [getline] yield.  A call on a
    stream at its end extracts nothing and fails, which ends the loop.
    Every successful call consumes a character, so a fuel of the length
    of the stream is never used up. *)
Fixpoint parts (fuel : nat) (stream : string) : list string :=
  match fuel with
  | O => []
  | S fuel' =>
      match stream with
      | EmptyString => []
      | _ => let '(part, stream') := getline stream in
             part :: parts fuel' stream'
      end
  end.

Definition components (path : string) : list string :=
  parts (String.length path) path.

(** The [while] loop of [index_find] over the parts still to come; a
    [break] leaves the remaining parts unread.  The result is the final
    [entry], the final [dir] and the rows asked for. *)
Fixpoint index_walk (t : table) (ps : list string) (entry : Z) (dir : bool)
  : Z * bool * list event :=
  match ps with
  | [] => (entry, dir, [])
  | part :: ps' =>
      if negb dir then (- ENOTDIR, dir, [])
      else
        match select_entry t entry part with
        | None => (- ENOENT, dir, [Lookup entry part])
        | Some r =>
            let '(entry', dir', trace) :=
              index_walk t ps' (sqlite3_column_int64 (id r)) (is_dir r) in
            (entry', dir', Lookup entry part :: trace)
        end
  end.

Definition filter_eqb (a b : entry_filter_t) : bool :=
  match a, b with
  | all, all | directory, directory | file, file => true
  | _, _ => false
  end.

Definition index_find (db : sqlite_handle) (path : string)
           (filter : entry_filter_t) : Z * list event :=
  match db with
  | None => (- EAGAIN, [FatalError "failed to query entry"])
  | Some t =>
      let '(entry, dir, trace) :=
        index_walk t (components path) ROOT_PARENT true in
      let entry :=
        if 0 <? entry then
          if filter_eqb filter directory && negb dir then - ENOTDIR
          else if filter_eqb filter file && dir then - EISDIR
          else entry
        else entry in
      (entry, trace)
  end.

(** The row [root_entry_sql] inserts, with the defaults of
    [entries_table_sql]; [now] is the time of the insertion. *)
Definition root_entry (now : Z) : row :=
  {| id := 1; parent := 0; name := EmptyString; dir := 1; size := 4096;
     atime := now; mtime := now; ctime := now |}.

(** [vram_init]: the store it leaves behind.  The three arguments are the
    results of [sqlite3_open] and of the two [sqlite3_exec]. *)
Definition vram_init (ret_open ret_table ret_root now : Z)
  : sqlite_handle * list event :=
  if negb (ret_open =? 0) then
    (None, [FatalError "failed to create index db"])
  else if negb (ret_table =? 0) then
    (None, [FatalError "failed to create index table"])
  else if negb (ret_root =? 0) then
    (Some [], [FatalError "failed to create root directory"])
  else (Some [root_entry now], []).

(** The fields of [struct stat]. *)
Record stat : Type := {
  st_dev : Z; st_ino : Z; st_mode : Z; st_nlink : Z;
  st_uid : Z; st_gid : Z; st_rdev : Z; st_size : Z;
  st_blksize : Z; st_blocks : Z;
  st_atime : Z; st_mtime : Z; st_ctime : Z
}.

(** The columns of a statement that has no current row read as 0. *)
Definition no_row : row :=
  {| id := 0; parent := 0; name := EmptyString; dir := 0; size := 0;
     atime := 0; mtime := 0; ctime := 0 |}.

Section WithProcess.
(** [geteuid()] and [getegid()] *)
Variables euid egid : Z.

Definition vram_getattr (db : sqlite_handle) (path : string)
           (stbuf : stat) : Z * stat * list event :=
  let '(entry, trace) := index_find db path all in
  if 0 <? entry then
    let r := match db with
             | Some t =>
                 match select_by_id t entry with
                 | Some r => r
                 | None => no_row
                 end
             | None => no_row
             end in
    let isdir := negb (sqlite3_column_int (dir r) =? 0) in
    (0,
     {| st_dev := 0; st_ino := 0;
        st_mode := if isdir then Z.lor S_IFDIR 493 (* 0755 *)
                   else Z.lor S_IFREG 292 (* 0444 *);
        st_nlink := if isdir then 2 else 1;
        st_uid := euid; st_gid := egid; st_rdev := 0;
        st_size := sqlite3_column_int64 (size r);
        st_blksize := 0; st_blocks := 0;
        st_atime := sqlite3_column_int64 (atime r);
        st_mtime := sqlite3_column_int64 (mtime r);
        st_ctime := sqlite3_column_int64 (ctime r) |},
     trace)
  else (to_int entry, stbuf, trace).
End WithProcess.

(** [vram_open]; [flags] is [fi->flags]. *)
Definition vram_open (db : sqlite_handle) (path : string) (flags : Z)
  : Z * list event :=
  let '(entry, trace) := index_find db path file in
  if 0 <? entry then
    if Z.land flags 3 =? O_RDONLY then (0, trace) else (- EACCES, trace)
  else (to_int entry, trace).

(** [vram_readdir]: [buf] is the listing the [filler] appends to; the
    result of [filler] is not looked at. *)
Definition vram_readdir (db : sqlite_handle) (path : string)
           (buf : list string) : Z * list string * list event :=
  let '(entry, trace) := index_find db path directory in
  if 0 <? entry then
    let names := match db with
                 | Some t => map name (filter (fun r => parent r =? entry) t)
                 | None => []
                 end in
    (0, buf ++ ["."%string; ".."%string] ++ names, trace)
  else (to_int entry, buf, trace).

End Index.

(** ** Vocabulary of the statements *)

(** The quotient rounded up, as the specification has it. *)
Definition ceil_div (a b : Z) : Z := (a + b - 1) / b.

(** The number of buffer creations among the calls made to the device. *)
Definition creations (calls : list (Device.command * Device.cl_int)) : nat :=
  List.length
    (filter (fun c => match fst c with
                      | Device.CreateBuffer _ => true
                      | _ => false
                      end) calls).

(** The values an [int] holds. *)
Definition int_range (z : Z) : Prop := - INT_MAX - 1 <= z <= INT_MAX.



(** The buffers the device hands out from [first] on. *)
Definition fresh_buffers (first : Device.cl_Buffer) (n : nat)
  : list Device.cl_Buffer :=
  map (fun k => (k + first)%nat) (seq 0 n).

(** The free buffers are distinct and are buffers the device created. *)
Definition fresh_pool (st : Memory.state) : Prop :=
  NoDup (Memory.pool st)
  /\ Forall (fun b => (b < Device.next_buffer (Memory.queue st))%nat)
            (Memory.pool st).

(** [walks t e ps r]: from the directory with identifier [e], the names
    [ps] lead to the row [r] of the table [t]; each name is found under the
    row before it, and every row before the last is a directory. *)
Inductive walks (t : Index.table) : Z -> list string -> Index.row -> Prop :=
| walks_last e n r :
    Index.select_entry t e n = Some r ->
    walks t e [n] r
| walks_step e n r ps r' :
    Index.select_entry t e n = Some r ->
    Index.is_dir r = true ->
    walks t (Index.id r) ps r' ->
    walks t e (n :: ps) r'.

(** The invariants of the table that the data model states: identifiers
    are positive, and [id] is the primary key. *)
Definition positive_ids (t : Index.table) : Prop :=
  Forall (fun r => 0 < Index.id r) t.

Definition primary_key (t : Index.table) : Prop :=
  NoDup (map Index.id t).

(** The names an operation asked the store for, in order. *)
Definition lookup_names (trace : list Index.event) : list string :=
  flat_map (fun e => match e with
                     | Index.Lookup _ n => [n]
                     | Index.FatalError _ => []
                     end) trace.

(** ** Concrete inputs *)

(** A device that has created three buffers holding leftover bytes, with a
    given script of coming statuses. *)
Definition sample_device (script : list Device.cl_int) : Device.device :=
  {| Device.contents := fun _ _ => x5a;
     Device.next_buffer := 3%nat;
     Device.issued := [];
     Device.faults := script;
     Device.callbacks := [] |}.

(** The globals after three blocks were pooled, on such a device. *)
Definition sample_state (fill : bool) (script : list Device.cl_int)
  : Memory.state :=
  {| Memory.has_fillbuffer := fill;
     Memory.zero_buffer := 0%nat;
     Memory.queue := sample_device script;
     Memory.pool := [1%nat; 2%nat];
     Memory.total_blocks := 3 |}.

(** A table with the root, a directory [docs] under it and a file [a.txt]
    in that directory. *)
Definition sample_table : Index.table :=
  [ Index.root_entry 1700000000;
    {| Index.id := 2; Index.parent := 1; Index.name := "docs";
       Index.dir := 1; Index.size := 4096; Index.atime := 1700000001;
       Index.mtime := 1700000002; Index.ctime := 1700000003 |};
    {| Index.id := 3; Index.parent := 2; Index.name := "a.txt";
       Index.dir := 0; Index.size := 12; Index.atime := 1700000004;
       Index.mtime := 1700000005; Index.ctime := 1700000006 |} ].

Definition sample_stat : Index.stat :=
  {| Index.st_dev := 7; Index.st_ino := 7; Index.st_mode := 7;
     Index.st_nlink := 7; Index.st_uid := 7; Index.st_gid := 7;
     Index.st_rdev := 7; Index.st_size := 7; Index.st_blksize := 7;
     Index.st_blocks := 7; Index.st_atime := 7; Index.st_mtime := 7;
     Index.st_ctime := 7 |}.

(** ** Vocabulary of the further statements *)

(** The parts of a path, by one pass over its characters. *)
Fixpoint split_path (s : string) : list string :=
  match s with
  | EmptyString => []
  | String c rest =>
      if Ascii.eqb c "/"%char then EmptyString :: split_path rest
      else match split_path rest with
           | [] => [String c EmptyString]
           | p :: ps => String c p :: ps
           end
  end.

(** The path that names a chain of entries: a separator before each name. *)
Fixpoint path_of (names : list string) : string :=
  match names with
  | [] => EmptyString
  | n :: ns => String "/"%char (n ++ path_of ns)%string
  end.

Fixpoint slash_free (s : string) : bool :=
  match s with
  | EmptyString => true
  | String c rest => negb (Ascii.eqb c "/"%char) && slash_free rest
  end.

Fixpoint ends_with_slash (s : string) : bool :=
  match s with
  | EmptyString => false
  | String c EmptyString => Ascii.eqb c "/"%char
  | String _ rest => ends_with_slash rest
  end.

(** No two rows of the table have the same parent and the same name. *)
Definition unique_siblings (t : Index.table) : Prop :=
  forall r r', In r t -> In r' t ->
    Index.parent r = Index.parent r' -> Index.name r = Index.name r' ->
    r = r'.

(** The rows of [t] right under the entry [e], in the order of the table. *)
Definition children (t : Index.table) (e : Z) : list Index.row :=
  filter (fun r => Index.parent r =? e) t.

(** [stands t ps e]: after the names [ps] the resolution stands in the
    directory [e]: at the sentinel when no name was followed, otherwise on
    the directory row the names lead to. *)
Definition stands (t : Index.table) (ps : list string) (e : Z) : Prop :=
  (ps = [] /\ e = Index.ROOT_PARENT)
  \/ exists r, walks t Index.ROOT_PARENT ps r
               /\ Index.is_dir r = true /\ e = Index.id r.

(** What [clear_buffer] writes to device memory when it is accepted. *)
Definition cleared (block_size : Z) (st : Memory.state)
           (buf : Device.cl_Buffer) : Device.memory -> Device.memory :=
  if Memory.has_fillbuffer st then Device.fill buf 0 block_size
  else Device.copy (Memory.zero_buffer st) buf 0 0 block_size.

(** The source of zeroes is in place and is a buffer made before the
    pool grows. *)
Definition zero_source_kept (block_size : Z) (st : Memory.state) : Prop :=
  Memory.has_fillbuffer st = true
  \/ ((Memory.zero_buffer st < Device.next_buffer (Memory.queue st))%nat
      /\ forall p, 0 <= p < block_size ->
           Device.contents (Memory.queue st) (Memory.zero_buffer st) p
           = Device.zero).

(** ** A client of the pool

    The functions of [vram::memory] are called by the rest of the program
    in any order.  A client holds the blocks it has allocated and not yet
    released; one step is one call. *)

Module Client.
Import Device Memory.

Record system : Type := {
  globals : state;
  live : list block      (* the blocks handed out and not yet destroyed *)
}.

Inductive op : Type :=
| Increase (size : Z)
| Allocate
| Release (k : nat)
| Write (k : nat) (offset size : Z) (data : list byte) (async : bool)
| Read (k : nat) (offset size : Z) (area : list byte).

Definition remove_nth {A} (k : nat) (l : list A) : list A :=
  firstn k l ++ skipn (S k) l.

Definition replace_nth {A} (k : nat) (x : A) (l : list A) : list A :=
  firstn k l ++ x :: skipn (S k) l.

Section WithBlockSize.
Variable block_size : Z.

(** One call.  [Release k], [Write k] and [Read k] act on the [k]-th live
    block and do nothing when there is none. *)
Definition step (o : op) (s : system) : system :=
  match o with
  | Increase size =>
      {| globals := snd (increase_pool block_size size (globals s));
         live := live s |}
  | Allocate =>
      match allocate (globals s) with
      | (Some b, g) => {| globals := g; live := live s ++ [b] |}
      | (None, g) => {| globals := g; live := live s |}
      end
  | Release k =>
      match nth_error (live s) k with
      | Some b => {| globals := block_delete b (globals s);
                     live := remove_nth k (live s) |}
      | None => s
      end
  | Write k offset size data async =>
      match nth_error (live s) k with
      | Some b =>
          let '(b', g) := write block_size b offset size data async
                                (globals s) in
          {| globals := g; live := replace_nth k b' (live s) |}
      | None => s
      end
  | Read k offset size area =>
      match nth_error (live s) k with
      | Some b =>
          {| globals := snd (read block_size b offset size area (globals s));
             live := live s |}
      | None => s
      end
  end.

Definition run (ops : list op) (s : system) : system :=
  fold_left (fun s o => step o s) ops s.
End WithBlockSize.

(** The buffers held by the live blocks. *)
Definition held (s : system) : list cl_Buffer := map buffer (live s).

(** Every buffer has one owner: the free buffers are distinct, the held
    buffers are distinct, no buffer is both free and held, and all of them
    were created by the device. *)
Definition owned (s : system) : Prop :=
  NoDup (pool (globals s))
  /\ NoDup (held s)
  /\ (forall b, In b (pool (globals s)) -> ~ In b (held s))
  /\ (forall b, In b (pool (globals s)) \/ In b (held s) ->
        (b < next_buffer (queue (globals s)))%nat).

(** The counter is the number of buffers, free or held. *)
Definition counted (s : system) : Prop :=
  total_blocks (globals s)
  = Z.of_nat (List.length (pool (globals s)) + List.length (live s))
  /\ total_blocks (globals s)
     <= Z.of_nat (next_buffer (queue (globals s))).

End Client.

(** ** The connection to the device ([init_opencl], [is_available]) *)

Module Backend.
Import Device Memory.

(** A platform as [cl::Platform::get] reports it: the state of each of its
    GPU devices, and its version as [getPlatformVersion] packs it,
    [major << 16 | minor]. *)
Record platform : Type := {
  gpu_devices : list device;
  version : Z
}.

(** The global [ready] beside the other globals. *)
Record backend : Type := {
  ready : bool;
  globals : state
}.

Definition set_has_fillbuffer (f : bool) (st : state) : state :=
  {| has_fillbuffer := f; zero_buffer := zero_buffer st;
     queue := queue st; pool := pool st; total_blocks := total_blocks st |}.

Definition set_zero_buffer (z : cl_Buffer) (st : state) : state :=
  {| has_fillbuffer := has_fillbuffer st; zero_buffer := z;
     queue := queue st; pool := pool st; total_blocks := total_blocks st |}.

(** [cl::Buffer(context, CL_MEM_READ_ONLY | CL_MEM_COPY_HOST_PTR, size,
    data, &r)]: the new buffer starts with a copy of the host [data]. *)
Definition createBufferFrom (size : Z) (data : list byte) (d : device)
  : cl_int * cl_Buffer * device :=
  let '(r, d') := call (CreateBuffer size) true
                       (store (next_buffer d) 0 size data) 1 d in
  (r, next_buffer d, d').

Section WithBuild.
(** [block::size], and whether the OpenCL headers of the build define
    [CL_VERSION_1_2]. *)
Variable block_size : Z.
Variable cl_version_1_2 : bool.

(** The [for] loop of [init_opencl] over the platforms still to come.
    Creating the context and the queue is not a call that can be refused
    here: the source does not look at their status.  When the creation of
    the zero buffer is refused the source assigns a null buffer; the model
    keeps the handle that the device did not hand out. *)
Fixpoint init_platforms (platforms : list platform) (st : state)
  : bool * state :=
  match platforms with
  | [] => (false, st)
  | p :: platforms' =>
      match gpu_devices p with
      | [] => init_platforms platforms' st
      | d :: _ =>
          (* device, context and queue *)
          let st1 := set_queue d st in
          let st2 :=
            if cl_version_1_2 && (65538 <=? version p)   (* 1 << 16 | 2 *)
            then set_has_fillbuffer true st1 else st1 in
          if negb (has_fillbuffer st2) then
            let '(r, buf, d') :=
              createBufferFrom block_size (repeat zero (Z.to_nat block_size))
                               (queue st2) in
            let st3 := set_zero_buffer buf (set_queue d' st2) in
            if negb (r =? CL_SUCCESS) then (false, st3) else (true, st3)
          else (true, st2)
      end
  end.

Definition init_opencl (platforms : list platform) (g : backend)
  : bool * state :=
  if ready g then (true, globals g)
  else if Z.of_nat (List.length platforms) =? 0 then (false, globals g)
  else init_platforms platforms (globals g).

Definition is_available (platforms : list platform) (g : backend)
  : bool * backend :=
  let '(r, st) := init_opencl platforms g in
  (r, {| ready := r; globals := st |}).
End WithBuild.

End Backend.

(** ** Further concrete inputs *)

(** A client at its start: nothing pooled, nothing allocated. *)
Definition sample_system : Client.system :=
  {| Client.globals :=
       {| Memory.has_fillbuffer := true;
          Memory.zero_buffer := 0%nat;
          Memory.queue := sample_device [0; 0; 0; 0; -4];
          Memory.pool := [];
          Memory.total_blocks := 0 |};
     Client.live := [] |}.

(** It asks for three blocks (the third creation is refused), takes both
    blocks, writes to the first, reads it, releases it and takes a block
    again. *)
Definition sample_ops : list Client.op :=
  [ Client.Increase 300000; Client.Allocate; Client.Allocate;
    Client.Write 0 4 3 [x01; x02; x03] true;
    Client.Read 0 4 3 [x07; x07; x07];
    Client.Release 0; Client.Allocate ].

(** A platform without GPU, and an OpenCL 1.1 platform with one GPU. *)
Definition sample_platforms : list Backend.platform :=
  [ {| Backend.gpu_devices := []; Backend.version := 131072 |};
    {| Backend.gpu_devices := [sample_device []];
       Backend.version := 65537 |} ].

Definition sample_backend : Backend.backend :=
  {| Backend.ready := false; Backend.globals := sample_state false [] |}.

(** * Properties *)

Lemma to_size_t_small z : 0 <= z <= SIZE_MAX -> to_size_t z = z.
Proof. unfold to_size_t, SIZE_MAX. intros H. apply Z.mod_small. lia. Qed.

Lemma to_int_small z : - INT_MAX - 1 <= z <= INT_MAX -> to_int z = z.
Proof.
  unfold to_int, INT_MAX. intros H.
  rewrite Z.mod_small by lia. lia.
Qed.

Lemma to_int_range z : - INT_MAX - 1 <= to_int z <= INT_MAX.
Proof.
  unfold to_int, INT_MAX.
  pose proof (Z.mod_pos_bound (z + 2 ^ 31) (2 ^ 32) ltac:(lia)). lia.
Qed.

Lemma to_int_add_idem a b : to_int (to_int a + b) = to_int (a + b).
Proof.
  unfold to_int.
  replace ((a + 2 ^ 31) mod 2 ^ 32 - 2 ^ 31 + b + 2 ^ 31)
    with ((a + 2 ^ 31) mod 2 ^ 32 + b) by lia.
  rewrite Zplus_mod_idemp_l. f_equal. f_equal. lia.
Qed.

(** ** The device *)

Section DeviceFacts.
Import Device.

Lemma call_status c e f d : fst (call c true e f d) = status_at 0 d.
Proof. reflexivity. Qed.

Lemma call_status_at c e f d k :
  status_at k (snd (call c true e f d)) = status_at (S k) d.
Proof.
  unfold status_at, call; simpl. destruct (faults d); simpl; trivial.
  destruct k; reflexivity.
Qed.

Lemma call_issued c v e f d :
  issued (snd (call c v e f d)) = issued d ++ [(c, fst (call c v e f d))].
Proof. reflexivity. Qed.

Lemma call_callbacks c v e f d :
  callbacks (snd (call c v e f d)) = callbacks d.
Proof. reflexivity. Qed.

Lemma call_next_buffer_ok c e f d :
  status_at 0 d = CL_SUCCESS ->
  next_buffer (snd (call c true e f d)) = (f + next_buffer d)%nat.
Proof. unfold call; simpl. intros ->. reflexivity. Qed.

Lemma call_next_buffer_le c v e f d :
  (next_buffer d <= next_buffer (snd (call c v e f d)))%nat.
Proof. unfold call; simpl. destruct (_ =? _); lia. Qed.

Lemma call_contents_ok c e f d :
  status_at 0 d = CL_SUCCESS ->
  contents (snd (call c true e f d)) = e (contents d).
Proof. unfold call; simpl. intros ->. reflexivity. Qed.

Lemma in_bounds_whole n : 0 <= n -> in_bounds n 0 n = true.
Proof.
  intros H. unfold in_bounds.
  rewrite !andb_true_iff, !Z.leb_le. lia.
Qed.

Lemma creations_app l1 l2 :
  creations (l1 ++ l2) = (creations l1 + creations l2)%nat.
Proof. unfold creations. now rewrite filter_app, length_app. Qed.
End DeviceFacts.

(** ** The block pool *)

Section PoolFacts.
Import Device Memory.

Variable block_size : Z.
Hypothesis block_size_range : 0 < block_size <= INT_MAX.

(** What one [clear_buffer] does to the globals: one call to the device,
    which is not a creation, and nothing else. *)
Lemma clear_buffer_effect buf st :
  exists c d,
    clear_buffer block_size buf st = (status_at 0 (queue st), set_queue d st)
    /\ d = snd (call c true
                     (if has_fillbuffer st then fill buf 0 block_size
                      else copy (zero_buffer st) buf 0 0 block_size)
                     0 (queue st))
    /\ creations [(c, status_at 0 (queue st))] = O.
Proof.
  unfold clear_buffer, enqueueFillBuffer, enqueueCopyBuffer.
  rewrite (in_bounds_whole block_size) by lia. simpl andb.
  destruct (has_fillbuffer st); eexists; eexists;
    (split; [reflexivity | split; [reflexivity | reflexivity]]).
Qed.

(** An iteration whose creation is refused returns at once. *)
Lemma increase_pool_loop_no_buffer n i count st :
  status_at 0 (queue st) <> CL_SUCCESS ->
  exists st',
    increase_pool_loop block_size (S n) i count st
    = (to_size_t (i * block_size), st')
    /\ pool st' = pool st /\ total_blocks st' = total_blocks st
    /\ creations (issued (queue st'))
       = (creations (issued (queue st)) + 1)%nat
    /\ (next_buffer (queue st) <= next_buffer (queue st'))%nat.
Proof.
  intros Hfail. cbn [increase_pool_loop]. unfold createBuffer.
  destruct (call (CreateBuffer block_size) true (fun m => m) 1 (queue st))
    as [r d] eqn:Ecall.
  pose proof (call_status (CreateBuffer block_size) (fun m => m) 1 (queue st))
    as Hr.
  pose proof (call_issued (CreateBuffer block_size) true (fun m => m) 1
                          (queue st)) as Hi.
  rewrite Ecall in Hr, Hi. cbn [fst snd] in Hr, Hi. subst r.
  apply Z.eqb_neq in Hfail. rewrite Hfail.
  assert (Hn : (next_buffer (queue st) <= next_buffer d)%nat).
  { replace d with (snd (call (CreateBuffer block_size) true (fun m => m) 1
                              (queue st))) by now rewrite Ecall.
    apply call_next_buffer_le. }
  eexists; split; [reflexivity|]. cbn [pool total_blocks queue set_queue].
  rewrite Hi, creations_app. unfold creations; simpl. auto.
Qed.

(** An iteration whose buffer is created and then not cleared returns at
    once too, and the buffer does not reach the pool. *)
Lemma increase_pool_loop_not_cleared n i count st :
  status_at 0 (queue st) = CL_SUCCESS ->
  status_at 1 (queue st) <> CL_SUCCESS ->
  exists st',
    increase_pool_loop block_size (S n) i count st
    = (to_size_t (i * block_size), st')
    /\ pool st' = pool st /\ total_blocks st' = total_blocks st
    /\ creations (issued (queue st'))
       = (creations (issued (queue st)) + 1)%nat
    /\ (next_buffer (queue st) <= next_buffer (queue st'))%nat.
Proof.
  intros H0 H1. cbn [increase_pool_loop]. unfold createBuffer.
  destruct (call (CreateBuffer block_size) true (fun m => m) 1 (queue st))
    as [r d] eqn:Ecall.
  pose proof (call_status (CreateBuffer block_size) (fun m => m) 1 (queue st))
    as Hr.
  pose proof (call_issued (CreateBuffer block_size) true (fun m => m) 1
                          (queue st)) as Hi.
  pose proof (call_status_at (CreateBuffer block_size) (fun m => m) 1
                             (queue st) 0) as Hs.
  rewrite Ecall in Hr, Hi, Hs. cbn [fst snd] in Hr, Hi, Hs. subst r.
  rewrite H0. simpl (CL_SUCCESS =? CL_SUCCESS).
  destruct (clear_buffer_effect (next_buffer (queue st)) (set_queue d st))
    as (c & d2 & Eclear & Hd2 & Hc).
  cbn [queue set_queue has_fillbuffer zero_buffer] in Eclear, Hd2, Hc.
  rewrite Eclear, Hs. apply Z.eqb_neq in H1. rewrite H1.
  assert (Hn : (next_buffer (queue st) <= next_buffer d2)%nat).
  { etransitivity; [|rewrite Hd2; apply call_next_buffer_le].
    replace d with (snd (call (CreateBuffer block_size) true (fun m => m) 1
                              (queue st))) by now rewrite Ecall.
    apply call_next_buffer_le. }
  eexists; split; [reflexivity|]. cbn [pool total_blocks queue set_queue].
  rewrite Hd2, call_issued, call_status, !creations_app, Hi, creations_app, Hc.
  repeat split; [unfold creations; simpl; lia | rewrite <- Hd2; exact Hn].
Qed.

(** An iteration whose buffer is created and cleared pushes it and goes
    on with the next one. *)
Lemma increase_pool_loop_pushed n i count st :
  status_at 0 (queue st) = CL_SUCCESS ->
  status_at 1 (queue st) = CL_SUCCESS ->
  exists st1,
    increase_pool_loop block_size (S n) i count st
    = increase_pool_loop block_size n (i + 1) count st1
    /\ pool st1 = pool st ++ [next_buffer (queue st)]
    /\ total_blocks st1 = to_int (total_blocks st + 1)
    /\ next_buffer (queue st1) = S (next_buffer (queue st))
    /\ (forall k, status_at k (queue st1) = status_at (S (S k)) (queue st))
    /\ creations (issued (queue st1))
       = (creations (issued (queue st)) + 1)%nat.
Proof.
  intros H0 H1. cbn [increase_pool_loop]. unfold createBuffer.
  destruct (call (CreateBuffer block_size) true (fun m => m) 1 (queue st))
    as [r d] eqn:Ecall.
  pose proof (call_status (CreateBuffer block_size) (fun m => m) 1 (queue st))
    as Hr.
  assert (Hd : d = snd (call (CreateBuffer block_size) true (fun m => m) 1
                             (queue st))) by now rewrite Ecall.
  rewrite Ecall in Hr. cbn [fst] in Hr. subst r.
  rewrite H0. simpl (CL_SUCCESS =? CL_SUCCESS).
  destruct (clear_buffer_effect (next_buffer (queue st)) (set_queue d st))
    as (c & d2 & Eclear & Hd2 & Hc).
  cbn [queue set_queue has_fillbuffer zero_buffer] in Eclear, Hd2, Hc.
  assert (Hs : status_at 0 d = CL_SUCCESS)
    by (rewrite Hd, call_status_at; exact H1).
  rewrite Eclear, Hs. simpl (CL_SUCCESS =? CL_SUCCESS).
  eexists; split; [reflexivity|].
  cbn [pool total_blocks queue set_queue set_pool set_total_blocks].
  repeat split.
  - rewrite Hd2, call_next_buffer_ok by exact Hs.
    rewrite Hd, call_next_buffer_ok by exact H0. reflexivity.
  - intros k. rewrite Hd2, call_status_at, Hd, call_status_at. reflexivity.
  - rewrite Hd2, call_issued, call_status, creations_app, Hs in *.
    rewrite Hc, Hd, call_issued, creations_app. unfold creations; simpl. lia.
Qed.

Lemma fresh_buffers_S first n :
  fresh_buffers first (S n) = first :: fresh_buffers (S first) n.
Proof.
  unfold fresh_buffers. cbn [seq map].
  rewrite <- seq_shift, map_map. apply f_equal2; [reflexivity|].
  apply map_ext. intros; lia.
Qed.

(** The loop when the iteration [j] from here is the first to fail. *)
Lemma increase_pool_loop_failure n :
  forall j i count st,
    (j < n)%nat ->
    int_range (total_blocks st) ->
    (forall k, (k < 2 * j)%nat -> status_at k (queue st) = CL_SUCCESS) ->
    status_at (2 * j) (queue st) <> CL_SUCCESS \/
    status_at (2 * j + 1) (queue st) <> CL_SUCCESS ->
    exists st',
      increase_pool_loop block_size n i count st
      = (to_size_t ((i + Z.of_nat j) * block_size), st')
      /\ pool st' = pool st ++ fresh_buffers (next_buffer (queue st)) j
      /\ total_blocks st' = to_int (total_blocks st + Z.of_nat j)
      /\ creations (issued (queue st'))
         = (creations (issued (queue st)) + S j)%nat.
Proof.
  induction n as [|n IH]; intros j i count st Hj Hrange Hok Hfail; [lia|].
  destruct j as [|j].
  - (* this iteration fails *)
    simpl in Hfail. cbn [Z.of_nat]. rewrite !Z.add_0_r.
    rewrite to_int_small by exact Hrange.
    unfold fresh_buffers; cbn [seq map]; rewrite app_nil_r.
    destruct (Z.eq_dec (status_at 0 (queue st)) CL_SUCCESS) as [H0|H0].
    + destruct Hfail as [Hfail|Hfail]; [contradiction|].
      destruct (increase_pool_loop_not_cleared n i count st H0 Hfail)
        as (st' & E & Hp & Ht & Hc & _).
      exists st'. auto.
    + destruct (increase_pool_loop_no_buffer n i count st H0)
        as (st' & E & Hp & Ht & Hc & _).
      exists st'. auto.
  - (* this iteration succeeds *)
    destruct (increase_pool_loop_pushed n i count st)
      as (st1 & Estep & Hpool1 & Htotal1 & Hnext1 & Hshift & Hcr1);
      try (apply Hok; lia).
    destruct (IH j (i + 1) count st1) as (st' & Eloop & Hpool & Htotal & Hcr).
    + lia.
    + rewrite Htotal1. apply to_int_range.
    + intros k Hk. rewrite Hshift. apply Hok. lia.
    + rewrite !Hshift.
      replace (S (S (2 * j))) with (2 * S j)%nat by lia.
      replace (S (S (2 * j + 1))) with (2 * S j + 1)%nat by lia.
      exact Hfail.
    + exists st'. rewrite Estep, Eloop, Hpool, Htotal, Hcr.
      rewrite Hpool1, Htotal1, Hnext1, Hcr1, fresh_buffers_S, to_int_add_idem.
      rewrite <- app_assoc. repeat split.
      * do 2 f_equal. lia.
      * f_equal. lia.
      * lia.
Qed.

(** The loop when no call is refused. *)
Lemma increase_pool_loop_success n :
  forall i count st,
    int_range (total_blocks st) ->
    (forall k, (k < 2 * n)%nat -> status_at k (queue st) = CL_SUCCESS) ->
    exists st',
      increase_pool_loop block_size n i count st
      = (to_size_t (count * block_size), st')
      /\ pool st' = pool st ++ fresh_buffers (next_buffer (queue st)) n
      /\ total_blocks st' = to_int (total_blocks st + Z.of_nat n).
Proof.
  induction n as [|n IH]; intros i count st Hrange Hok.
  - exists st. unfold fresh_buffers; simpl.
    rewrite app_nil_r, Z.add_0_r, to_int_small by exact Hrange. auto.
  - destruct (increase_pool_loop_pushed n i count st)
      as (st1 & Estep & Hpool1 & Htotal1 & Hnext1 & Hshift & _);
      try (apply Hok; lia).
    destruct (IH (i + 1) count st1) as (st' & Eloop & Hpool & Htotal).
    + rewrite Htotal1. apply to_int_range.
    + intros k Hk. rewrite Hshift. apply Hok. lia.
    + exists st'. rewrite Estep, Eloop, Hpool, Htotal.
      rewrite Hpool1, Htotal1, Hnext1, fresh_buffers_S, to_int_add_idem.
      rewrite <- app_assoc. repeat split. f_equal. lia.
Qed.

(** Whatever the device answers, the loop appends to the pool some of the
    buffers the device hands out, in order, and no other. *)
Lemma increase_pool_loop_appends n :
  forall i count st,
  exists k st',
    increase_pool_loop block_size n i count st
    = (fst (increase_pool_loop block_size n i count st), st')
    /\ (k <= n)%nat
    /\ pool st' = pool st ++ fresh_buffers (next_buffer (queue st)) k
    /\ (next_buffer (queue st) + k <= next_buffer (queue st'))%nat.
Proof.
  induction n as [|n IH]; intros i count st.
  - exists O, st. unfold fresh_buffers; simpl.
    rewrite app_nil_r, Nat.add_0_r. auto.
  - destruct (Z.eq_dec (status_at 0 (queue st)) CL_SUCCESS) as [H0|H0];
      [destruct (Z.eq_dec (status_at 1 (queue st)) CL_SUCCESS) as [H1|H1]|].
    + destruct (increase_pool_loop_pushed n i count st H0 H1)
        as (st1 & Estep & Hpool1 & _ & Hnext1 & _).
      destruct (IH (i + 1) count st1) as (k & st' & E & Hk & Hpool & Hnext).
      exists (S k), st'. rewrite Estep. split; [exact E|].
      split; [lia|].
      rewrite Hpool, Hpool1, Hnext1, fresh_buffers_S, <- app_assoc.
      split; [reflexivity | lia].
    + destruct (increase_pool_loop_not_cleared n i count st H0 H1)
        as (st' & E & Hp & _ & _ & Hn).
      exists O, st'. rewrite E. unfold fresh_buffers; simpl.
      rewrite app_nil_r, Nat.add_0_r. repeat split; [lia | auto | auto].
    + destruct (increase_pool_loop_no_buffer n i count st H0)
        as (st' & E & Hp & _ & _ & Hn).
      exists O, st'. rewrite E. unfold fresh_buffers; simpl.
      rewrite app_nil_r, Nat.add_0_r. repeat split; [lia | auto | auto].
Qed.

Lemma fresh_buffers_bounds first n b :
  In b (fresh_buffers first n) -> (first <= b < first + n)%nat.
Proof.
  unfold fresh_buffers. rewrite in_map_iff. intros (k & <- & Hk).
  apply in_seq in Hk. lia.
Qed.

Lemma fresh_buffers_NoDup first n : NoDup (fresh_buffers first n).
Proof.
  revert first. induction n as [|n IH]; intros first; [constructor|].
  rewrite fresh_buffers_S. constructor; [|apply IH].
  intros Hin. apply fresh_buffers_bounds in Hin. lia.
Qed.

(** [increase_pool] keeps the pool free of duplicates and within the
    buffers of the device, whatever the device answers. *)
Lemma increase_pool_keeps_pool_fresh size st :
  fresh_pool st -> fresh_pool (snd (increase_pool block_size size st)).
Proof.
  intros [Hnd Hlt]. unfold increase_pool.
  destruct (increase_pool_loop_appends
              (Z.to_nat (block_count block_size size)) 0
              (block_count block_size size) st)
    as (k & st' & E & _ & Hpool & Hnext).
  rewrite E. cbn [snd]. rewrite Forall_forall in Hlt.
  split.
  - rewrite Hpool. apply NoDup_app; [exact Hnd | apply fresh_buffers_NoDup|].
    intros b Hb Hfresh. apply Hlt in Hb.
    apply fresh_buffers_bounds in Hfresh. lia.
  - rewrite Hpool. apply Forall_forall. intros b Hb.
    apply in_app_or in Hb as [Hb|Hb].
    + apply Hlt in Hb. lia.
    + apply fresh_buffers_bounds in Hb. lia.
Qed.

Lemma block_count_range size : int_range (block_count block_size size).
Proof. apply to_int_range. Qed.

(** C1. For every requested size: when the buffer of index [i] is the
    first whose creation or clearing is refused, [increase_pool] makes no
    further creation, returns [i * block_size], leaves the pool extended
    by exactly the [i] buffers created before and [total_blocks] raised by
    [i].  The result is a byte count in the range of [size_t]; the
    function has no other result. *)
Theorem increase_pool_first_failure (size : Z) (st : state) (i : nat) :
  int_range (total_blocks st) ->
  total_blocks st + Z.of_nat i <= INT_MAX ->
  Z.of_nat i < block_count block_size size ->
  (forall k, (k < 2 * i)%nat -> status_at k (queue st) = CL_SUCCESS) ->
  status_at (2 * i) (queue st) <> CL_SUCCESS \/
  status_at (2 * i + 1) (queue st) <> CL_SUCCESS ->
  fst (increase_pool block_size size st) = Z.of_nat i * block_size
  /\ 0 <= fst (increase_pool block_size size st) <= SIZE_MAX
  /\ pool (snd (increase_pool block_size size st))
     = pool st ++ fresh_buffers (next_buffer (queue st)) i
  /\ List.length (pool (snd (increase_pool block_size size st)))
     = (List.length (pool st) + i)%nat
  /\ total_blocks (snd (increase_pool block_size size st))
     = total_blocks st + Z.of_nat i
  /\ creations (issued (queue (snd (increase_pool block_size size st))))
     = (creations (issued (queue st)) + S i)%nat.
Proof.
  intros Hrange Htotal Hi Hok Hfail. unfold increase_pool.
  pose proof (block_count_range size) as Hcount.
  destruct (increase_pool_loop_failure
              (Z.to_nat (block_count block_size size)) i 0
              (block_count block_size size) st)
    as (st' & Eloop & Hpool & Htb & Hcr); try assumption; [lia|].
  rewrite Eloop. cbn [fst snd]. rewrite Z.add_0_l.
  assert (Hret : 0 <= Z.of_nat i * block_size <= SIZE_MAX).
  { unfold int_range, INT_MAX in *. unfold SIZE_MAX. nia. }
  rewrite to_size_t_small by exact Hret.
  repeat split; try assumption; try apply Hret.
  - rewrite Hpool, length_app. unfold fresh_buffers.
    now rewrite length_map, length_seq.
  - rewrite Htb. apply to_int_small. unfold int_range in Hrange. lia.
Qed.

(** C5, as the code has it.  For a request of 1 to
    [INT_MAX * block_size] bytes, [block_count] is the quotient rounded
    up, and when no call is refused [increase_pool] adds that many buffers
    and returns [block_count * block_size], which is at least the request
    and exceeds it by less than one block. *)
Theorem increase_pool_rounds_up (size : Z) (st : state) :
  1 <= size <= INT_MAX * block_size ->
  int_range (total_blocks st) ->
  block_count block_size size = ceil_div size block_size
  /\ ((forall k, (k < 2 * Z.to_nat (block_count block_size size))%nat ->
                 status_at k (queue st) = CL_SUCCESS) ->
      fst (increase_pool block_size size st)
      = block_count block_size size * block_size
      /\ size <= fst (increase_pool block_size size st) < size + block_size
      /\ pool (snd (increase_pool block_size size st))
         = pool st ++ fresh_buffers (next_buffer (queue st))
                        (Z.to_nat (block_count block_size size))
      /\ total_blocks (snd (increase_pool block_size size st))
         = to_int (total_blocks st + block_count block_size size)).
Proof.
  intros Hsize Hrange.
  assert (Hq : 0 <= (size - 1) / block_size < INT_MAX).
  { split; [apply Z.div_pos; lia|].
    apply Z.div_lt_upper_bound; lia. }
  assert (Hcount : block_count block_size size
                   = 1 + (size - 1) / block_size).
  { unfold block_count.
    rewrite (to_size_t_small (size - 1)) by (unfold SIZE_MAX, INT_MAX in *; nia).
    rewrite to_size_t_small by (unfold SIZE_MAX, INT_MAX in *; lia).
    apply to_int_small. lia. }
  assert (Hceil : ceil_div size block_size = 1 + (size - 1) / block_size).
  { unfold ceil_div.
    replace (size + block_size - 1) with (size - 1 + 1 * block_size) by lia.
    rewrite Z.div_add by lia. lia. }
  split; [congruence|]. intros Hok. unfold increase_pool.
  destruct (increase_pool_loop_success
              (Z.to_nat (block_count block_size size)) 0
              (block_count block_size size) st Hrange Hok)
    as (st' & Eloop & Hpool & Htb).
  rewrite Eloop. cbn [fst snd].
  pose proof (Z.mul_div_le (size - 1) block_size ltac:(lia)) as Hlo.
  pose proof (Z.mul_succ_div_gt (size - 1) block_size ltac:(lia)) as Hhi.
  rewrite to_size_t_small by (unfold SIZE_MAX, INT_MAX in *; nia).
  repeat split; try assumption.
  - rewrite Hcount. lia.
  - rewrite Hcount. lia.
  - rewrite Htb. f_equal. rewrite Z2Nat.id by lia. reflexivity.
Qed.
End PoolFacts.

(** The narrowing does not depend on the size of the blocks: a request of
    one byte more than 2^31 blocks always yields a negative count. *)
Lemma block_count_narrowed (block_size : Z) :
  0 < block_size <= INT_MAX ->
  Memory.block_count block_size (2 ^ 31 * block_size + 1) = - INT_MAX
  /\ ceil_div (2 ^ 31 * block_size + 1) block_size = 2 ^ 31 + 1.
Proof.
  intros Hbs. unfold Memory.block_count, ceil_div.
  replace (2 ^ 31 * block_size + 1 - 1) with (2 ^ 31 * block_size) by lia.
  rewrite (to_size_t_small (2 ^ 31 * block_size))
    by (unfold SIZE_MAX, INT_MAX in *; lia).
  replace (2 ^ 31 * block_size + 1 + block_size - 1)
    with ((2 ^ 31 + 1) * block_size) by lia.
  rewrite !Z.div_mul by lia.
  split; [|reflexivity]. vm_compute. reflexivity.
Qed.

(** A request of 0 bytes wraps [size - 1].  With a block size that is a
    power of two the count is 0 all the same; with other block sizes it is
    not (with blocks of 3 bytes it would be 1431655766). *)
Lemma block_count_zero (k : nat) :
  (k <= 31)%nat -> Memory.block_count (2 ^ Z.of_nat k) 0 = 0.
Proof.
  intros Hk. do 32 (destruct k as [|k]; [vm_compute; reflexivity|]). lia.
Qed.

(** In [sample_state true [0; 0; 0; 0; -4]] a request of 300000 bytes with
    blocks of 128 KiB asks for three buffers; the third creation is
    refused. *)
Lemma increase_pool_first_failure_witness :
  let st := sample_state true [0; 0; 0; 0; -4] in
  2 < Memory.block_count 131072 300000
  /\ fst (Memory.increase_pool 131072 300000 st) = 262144
  /\ Memory.pool (snd (Memory.increase_pool 131072 300000 st))
     = [1; 2; 3; 4]%nat
  /\ Memory.total_blocks (snd (Memory.increase_pool 131072 300000 st)) = 5.
Proof.
  intros st.
  assert (Hbs : 0 < 131072 <= INT_MAX) by (unfold INT_MAX; lia).
  assert (Hlt : Z.of_nat 2 < Memory.block_count 131072 300000)
    by (vm_compute; reflexivity).
  split; [exact Hlt|].
  destruct (increase_pool_first_failure 131072 Hbs 300000 st 2)
    as (Hret & _ & Hpool & _ & Htotal & _).
  - unfold int_range, INT_MAX; simpl; lia.
  - unfold INT_MAX; simpl; lia.
  - exact Hlt.
  - intros k Hk. do 4 (destruct k as [|k]; [reflexivity|]). lia.
  - left. vm_compute. discriminate.
  - split; [exact Hret|]. split; [exact Hpool|exact Htotal].
Defined.

(** C5, as stated, fails: a request of 2^48 + 1 bytes with blocks of
    128 KiB needs 2^31 + 1 blocks, which [int block_count] does not hold.
    The count is negative, the loop does not run, and although no call was
    refused no buffer is added. *)
Lemma increase_pool_block_count_narrowed :
  Memory.block_count 131072 (2 ^ 48 + 1) <> ceil_div (2 ^ 48 + 1) 131072
  /\ Memory.pool
       (snd (Memory.increase_pool 131072 (2 ^ 48 + 1) (sample_state true [])))
     = Memory.pool (sample_state true []).
Proof. split; [vm_compute; discriminate | vm_compute; reflexivity]. Qed.

Lemma increase_pool_rounds_up_witness :
  let st := sample_state false [] in
  Memory.block_count 131072 300000 = ceil_div 300000 131072
  /\ fst (Memory.increase_pool 131072 300000 st) = 393216
  /\ Memory.pool (snd (Memory.increase_pool 131072 300000 st))
     = [1; 2; 3; 4; 5]%nat.
Proof.
  intros st.
  assert (Hbs : 0 < 131072 <= INT_MAX) by (unfold INT_MAX; lia).
  destruct (increase_pool_rounds_up 131072 Hbs 300000 st) as (Hcount & Hrun).
  - unfold INT_MAX; lia.
  - unfold int_range, INT_MAX; simpl; lia.
  - split; [exact Hcount|].
    destruct Hrun as (Hret & _ & Hpool & _).
    + intros k _. destruct k; reflexivity.
    + split; [exact Hret | exact Hpool].
Defined.

(** ** Checking blocks out *)

Section AllocateFacts.
Import Device Memory.

Lemma pool_back (p : list cl_Buffer) :
  p <> [] -> p = removelast p ++ [last p O].
Proof. intros H. now apply app_removelast_last. Qed.

(** C6. With a buffer in the pool, [allocate] answers a block that wraps
    the back of the pool and leaves the rest of the pool: one buffer
    fewer is available, the wrapped buffer is no longer among the free
    ones, [pool_size] and the device are untouched.  With an empty pool
    it answers null and changes nothing: it makes no device call and adds
    no buffer. *)
Theorem allocate_pops_or_null (st : state) :
  (pool st <> [] ->
   exists b st',
     allocate st = (Some b, st')
     /\ pool st = pool st' ++ [buffer b]
     /\ (NoDup (pool st) -> ~ In (buffer b) (pool st'))
     /\ (Z.of_nat (List.length (pool st)) <= INT_MAX ->
         pool_available st' = pool_available st - 1)
     /\ pool_size st' = pool_size st
     /\ queue st' = queue st)
  /\ (pool st = [] -> allocate st = (None, st)).
Proof.
  split.
  - intros Hne. unfold allocate, block_new.
    pose proof (pool_back (pool st) Hne) as Hback.
    assert (Hl : List.length (pool st)
                 = S (List.length (removelast (pool st)))).
    { rewrite Hback at 1. rewrite length_app. simpl List.length. lia. }
    replace (Z.of_nat (List.length (pool st)) =? 0) with false
      by (symmetry; apply Z.eqb_neq; lia).
    cbn [negb]. eexists; eexists; split; [reflexivity|].
    cbn [pool set_pool buffer pool_size total_blocks queue].
    repeat split.
    + exact Hback.
    + intros Hnd Hin. rewrite Hback in Hnd.
      apply NoDup_remove_2 in Hnd. rewrite app_nil_r in Hnd. contradiction.
    + intros Hlen. unfold pool_available. cbn [pool set_pool].
      rewrite Hl in *. rewrite !to_int_small by (unfold INT_MAX in *; lia).
      lia.
  - intros Hnil. unfold allocate. rewrite Hnil. reflexivity.
Qed.
(** [allocate] keeps the pool free of duplicates and within the buffers of
    the device. *)
Lemma allocate_keeps_pool_fresh st :
  fresh_pool st -> fresh_pool (snd (allocate st)).
Proof.
  intros [Hnd Hlt]. unfold allocate, block_new.
  destruct (negb (Z.of_nat (List.length (pool st)) =? 0)); [|now split].
  cbn [snd]. unfold fresh_pool. cbn [pool set_pool queue].
  destruct (pool st) as [|x p] eqn:Ep; [now split|].
  pose proof (pool_back (x :: p) ltac:(discriminate)) as Hback.
  rewrite Hback in Hnd, Hlt. split.
  - apply NoDup_remove_1 in Hnd. now rewrite app_nil_r in Hnd.
  - apply Forall_app in Hlt. tauto.
Qed.
End AllocateFacts.

Lemma allocate_pops_or_null_witness :
  (exists b st',
     Memory.allocate (sample_state true []) = (Some b, st')
     /\ [1; 2]%nat = Memory.pool st' ++ [Memory.buffer b]
     /\ Memory.pool_available st'
        = Memory.pool_available (sample_state true []) - 1)
  /\ Memory.allocate (Memory.set_pool [] (sample_state true []))
     = (None, Memory.set_pool [] (sample_state true [])).
Proof.
  destruct (allocate_pops_or_null (sample_state true [])) as [Hpop _].
  destruct (allocate_pops_or_null (Memory.set_pool [] (sample_state true [])))
    as [_ Hnull].
  split; [|apply Hnull; reflexivity].
  destruct Hpop as (b & st' & Ealloc & Hpool & _ & Havail & _);
    [discriminate|].
  exists b, st'. split; [exact Ealloc|]. split; [exact Hpool|].
  apply Havail. unfold INT_MAX. simpl. lia.
Defined.

(** ** Reading and writing a block *)

Section BlockFacts.
Import Device Memory.

Variable block_size : Z.

Lemma length_repeat_zero n : List.length (repeat zero n) = n.
Proof. apply repeat_length. Qed.

Lemma overwrite_firstn (data bytes : list byte) :
  firstn (List.length bytes) (overwrite data bytes) = bytes.
Proof.
  unfold overwrite. rewrite firstn_app, Nat.sub_diag, firstn_all.
  simpl. apply app_nil_r.
Qed.

Lemma overwrite_skipn (data bytes : list byte) :
  skipn (List.length bytes) (overwrite data bytes)
  = skipn (List.length bytes) data.
Proof.
  unfold overwrite. rewrite skipn_app, Nat.sub_diag, skipn_all.
  reflexivity.
Qed.

(** C3. The block that [allocate] constructs is dirty.  Reading [size]
    bytes of a dirty block at any offset puts [size] zero bytes at the
    start of the host area, leaves the rest of the area and all the
    globals as they were, and makes no call to the device.  Reading a
    block that is not dirty makes exactly one call, a blocking read of
    the block's buffer. *)
Theorem read_dirty_is_zero_fill :
  (forall st, dirty (fst (block_new st)) = true)
  /\ (forall st, match fst (allocate st) with
                 | Some b => dirty b = true
                 | None => True
                 end)
  /\ (forall buf e offset size data st,
        let b := {| buffer := buf; dirty := true; last_write := e |} in
        let n := Z.to_nat size in
        firstn n (fst (read block_size b offset size data st))
        = repeat zero n
        /\ skipn n (fst (read block_size b offset size data st))
           = skipn n data
        /\ snd (read block_size b offset size data st) = st
        /\ issued (queue (snd (read block_size b offset size data st)))
           = issued (queue st))
  /\ (forall buf e offset size data st,
        let b := {| buffer := buf; dirty := false; last_write := e |} in
        exists r,
          issued (queue (snd (read block_size b offset size data st)))
          = issued (queue st)
            ++ [(ReadBuffer buf true (to_size_t offset) size, r)]).
Proof.
  split; [reflexivity|]. split; [|split].
  - intros st. unfold allocate.
    destruct (negb (Z.of_nat (List.length (pool st)) =? 0)); exact eq_refl || exact I.
  - intros buf e offset size data st b n. unfold read. cbn [dirty b fst snd].
    pose proof (overwrite_firstn data (repeat zero n)) as Hf.
    pose proof (overwrite_skipn data (repeat zero n)) as Hs.
    rewrite length_repeat_zero in Hf, Hs. auto.
  - intros buf e offset size data st b. unfold read, enqueueReadBuffer.
    cbn [dirty buffer b].
    destruct (call _ _ _ _ _) as [r d] eqn:Ecall.
    exists r. cbn [snd queue set_queue].
    pose proof (call_issued (ReadBuffer buf true (to_size_t offset) size)
                  (in_bounds block_size (to_size_t offset) size)
                  (fun m => m) 0 (queue st)) as Hi.
    rewrite Ecall in Hi. exact Hi.
Qed.
End BlockFacts.

Section WriteFacts.
Import Device Memory.

Variable block_size : Z.
Hypothesis block_size_range : 0 < block_size <= INT_MAX.

Lemma clear_buffer_eq buf st :
  clear_buffer block_size buf st
  = (fst (if has_fillbuffer st
          then enqueueFillBuffer block_size buf 0 block_size (queue st)
          else enqueueCopyBuffer block_size (zero_buffer st) buf 0 0
                                 block_size (queue st)),
     set_queue
       (snd (if has_fillbuffer st
             then enqueueFillBuffer block_size buf 0 block_size (queue st)
             else enqueueCopyBuffer block_size (zero_buffer st) buf 0 0
                                    block_size (queue st))) st).
Proof.
  unfold clear_buffer.
  destruct (if has_fillbuffer st then _ else _). reflexivity.
Qed.



Lemma clear_buffer_status_at buf st k :
  0 <= block_size ->
  status_at k (queue (snd (clear_buffer block_size buf st)))
  = status_at (S k) (queue st).
Proof.
  intros Hbs.
  rewrite clear_buffer_eq. unfold enqueueFillBuffer, enqueueCopyBuffer.
  rewrite (in_bounds_whole block_size) by lia. cbn [andb].
  destruct (has_fillbuffer st); cbn [snd queue set_queue];
    apply call_status_at.
Qed.

Lemma in_bounds_true offset size :
  0 <= offset -> 0 <= size -> offset + size <= block_size ->
  in_bounds block_size offset size = true.
Proof.
  intros. unfold in_bounds. rewrite !andb_true_iff, !Z.leb_le. lia.
Qed.



Lemma setCallback_contents e data d :
  contents (setCallback e data d) = contents d.
Proof. destruct e; reflexivity. Qed.

Lemma setCallback_status_at e data d k :
  status_at k (setCallback e data d) = status_at k d.
Proof. destruct e; reflexivity. Qed.

(** [write] as three steps: the conditional clearing, the call that
    enqueues the write, the registration of the callback. *)
Lemma write_eq b offset size data async st :
  let st1 := if dirty b && negb (size =? block_size)
             then snd (clear_buffer block_size (buffer b) st) else st in
  let payload := firstn (Z.to_nat size) data in
  let w := call (WriteBuffer (buffer b) (negb async) (to_size_t offset)
                             size payload)
                (in_bounds block_size (to_size_t offset) size)
                (store (buffer b) (to_size_t offset) size payload)
                0 (queue st1) in
  let event := event_of (fst w) (queue st1) in
  write block_size b offset size data async st
  = ({| buffer := buffer b; dirty := false; last_write := event |},
     set_queue (if async then setCallback event payload (snd w) else snd w)
               st1).
Proof. reflexivity. Qed.


End WriteFacts.

(** ** The path index *)

Section IndexFacts.
Import Index Index.entry_filter.

(** A successful [getline] shortens the stream. *)
Lemma getline_shorter c s :
  (String.length (snd (getline (String c s))) <= String.length s)%nat.
Proof.
  revert c. induction s as [|c' s IH]; intros c.
  - cbn [getline]. destruct (Ascii.eqb c "/"); simpl; lia.
  - specialize (IH c'). change (getline (String c (String c' s)))
      with (if Ascii.eqb c "/" then (EmptyString, String c' s)
            else let '(part, stream') := getline (String c' s) in
                 (String c part, stream')).
    destruct (Ascii.eqb c "/"); [simpl; lia|].
    destruct (getline (String c' s)) as [p r].
    cbn [snd String.length] in *. lia.
Qed.

(** Any fuel from the length of the stream on yields the same parts: the
    loop over [getline] ends by itself. *)
Lemma parts_enough_fuel fuel :
  forall fuel' s,
    (String.length s <= fuel)%nat -> (String.length s <= fuel')%nat ->
    parts fuel s = parts fuel' s.
Proof.
  induction fuel as [|fuel IH]; intros fuel' s H H'.
  - destruct s; [|simpl in H; lia]. destruct fuel'; reflexivity.
  - destruct s as [|c s]; [destruct fuel'; reflexivity|].
    destruct fuel' as [|fuel']; [simpl in H'; lia|].
    cbn [parts]. pose proof (getline_shorter c s) as Hlen.
    destruct (getline (String c s)) as [p r]. cbn [snd] in Hlen.
    simpl in H, H'. f_equal. apply IH; lia.
Qed.

Lemma components_fuel fuel path :
  (String.length path <= fuel)%nat -> parts fuel path = components path.
Proof. intros H. apply parts_enough_fuel; [exact H | apply Nat.le_refl]. Qed.

Lemma walks_nonempty t e ps r : walks t e ps r -> ps <> [].
Proof. destruct 1; discriminate. Qed.

Lemma walks_in t e ps r : walks t e ps r -> In r t.
Proof.
  induction 1 as [e n r Hsel|]; [|assumption].
  unfold select_entry in Hsel. apply find_some in Hsel. tauto.
Qed.

(** The loop of [index_find] follows a walk: past the names [ps] that
    lead to [r] it stands on [r], having asked for exactly these names. *)
Lemma index_walk_follows t e ps r :
  walks t e ps r ->
  forall rest,
  exists trace,
    index_walk t (ps ++ rest) e true
    = (fst (fst (index_walk t rest (id r) (is_dir r))),
       snd (fst (index_walk t rest (id r) (is_dir r))),
       trace ++ snd (index_walk t rest (id r) (is_dir r)))
    /\ lookup_names trace = ps.
Proof.
  induction 1 as [e n r Hsel | e n r ps r' Hsel Hdir Hw IH]; intros rest.
  - exists [Lookup e n]. split; [|reflexivity].
    cbn [app index_walk negb]. rewrite Hsel.
    unfold sqlite3_column_int64.
    destruct (index_walk t rest (id r) (is_dir r)) as [[e' d'] tr].
    reflexivity.
  - destruct (IH rest) as (trace & Ewalk & Hnames).
    exists (Lookup e n :: trace). split; [|simpl; now rewrite Hnames].
    cbn [app index_walk negb]. rewrite Hsel.
    unfold sqlite3_column_int64. rewrite Hdir, Ewalk. reflexivity.
Qed.

Lemma index_walk_resolved t e ps r :
  walks t e ps r ->
  exists trace,
    index_walk t ps e true = (id r, is_dir r, trace)
    /\ lookup_names trace = ps.
Proof.
  intros Hw. destruct (index_walk_follows t e ps r Hw []) as (tr & E & Hn).
  exists tr. rewrite app_nil_r in E. cbn [index_walk fst snd] in E.
  rewrite app_nil_r in E. auto.
Qed.

(** C2. With a table that can be queried: when a prefix of the
    components of the path leads to a row that is not a directory and
    components remain, [index_find] answers [-ENOTDIR] under every
    filter, having asked the store for the names of the prefix and no
    other.  When the components lead to a row [r] of a table whose
    identifiers are positive, the filter [directory] on a file answers
    [-ENOTDIR], the filter [file] on a directory answers [-EISDIR], and
    every other combination answers the identifier of [r], which is
    positive. *)
Theorem index_find_type_errors (t : table) (path : string)
        (filter : entry_filter_t) :
  (forall pre rest r,
      components path = pre ++ rest -> rest <> [] ->
      walks t ROOT_PARENT pre r -> is_dir r = false ->
      fst (index_find (Some t) path filter) = - ENOTDIR
      /\ lookup_names (snd (index_find (Some t) path filter)) = pre)
  /\ (forall r,
        walks t ROOT_PARENT (components path) r -> positive_ids t ->
        0 < id r
        /\ fst (index_find (Some t) path filter)
           = match filter, is_dir r with
             | directory, false => - ENOTDIR
             | file, true => - EISDIR
             | _, _ => id r
             end).
Proof.
  split.
  - intros pre rest r Hsplit Hrest Hw Hfile.
    destruct (index_walk_follows t ROOT_PARENT pre r Hw rest)
      as (trace & Ewalk & Hnames).
    unfold index_find. rewrite Hsplit, Ewalk, Hfile.
    destruct rest as [|c rest]; [congruence|].
    cbn [index_walk negb fst snd]. rewrite app_nil_r.
    split; [reflexivity | exact Hnames].
  - intros r Hw Hpos.
    assert (Hid : 0 < id r).
    { unfold positive_ids in Hpos. rewrite Forall_forall in Hpos.
      apply Hpos. eapply walks_in; eassumption. }
    split; [exact Hid|].
    destruct (index_walk_resolved t ROOT_PARENT _ r Hw) as (trace & E & _).
    unfold index_find. rewrite E.
    replace (0 <? id r) with true by (symmetry; apply Z.ltb_lt; exact Hid).
    destruct filter, (is_dir r); reflexivity.
Qed.

(** C7, as the code has it.  On the index that [vram_init] leaves, the
    path made of the separator alone has one component, the empty name;
    [index_find] asks the store once, for the empty name under the
    sentinel parent, finds the root row and answers its identifier 1,
    without filter and with the filter [directory]. *)
Theorem index_find_root (now : Z) :
  components "/" = [EmptyString]
  /\ index_find (fst (vram_init 0 0 0 now)) "/" all
     = (ROOT_ENTRY, [Lookup ROOT_PARENT EmptyString])
  /\ index_find (fst (vram_init 0 0 0 now)) "/" directory
     = (ROOT_ENTRY, [Lookup ROOT_PARENT EmptyString]).
Proof. repeat split. Qed.

Lemma select_by_id_walked t r :
  primary_key t -> In r t -> select_by_id t (id r) = Some r.
Proof.
  unfold primary_key, select_by_id.
  induction t as [|x t IH]; intros Hkey Hin; [contradiction|].
  cbn [map] in Hkey. apply NoDup_cons_iff in Hkey as [Hx Hkey].
  cbn [find]. destruct Hin as [ -> | Hin ]; [now rewrite Z.eqb_refl|].
  destruct (id x =? id r) eqn:E; [|auto].
  apply Z.eqb_eq in E. exfalso. apply Hx. rewrite E. now apply in_map.
Qed.

(** C8. On a path that leads to a file row with a positive identifier,
    [vram_open] answers 0 exactly when the access mode of the flags is
    [O_RDONLY], and [-EACCES] for every other access mode.  When
    [index_find] under the filter [file] answers [-ENOENT], [-ENOTDIR] or
    [-EISDIR], [vram_open] answers the same value. *)
Theorem vram_open_read_only (db : sqlite_handle) (path : string)
        (flags : Z) :
  (forall t r,
      db = Some t ->
      walks t ROOT_PARENT (components path) r ->
      is_dir r = false -> 0 < id r ->
      (fst (vram_open db path flags) = 0 <-> Z.land flags 3 = O_RDONLY)
      /\ (Z.land flags 3 <> O_RDONLY ->
          fst (vram_open db path flags) = - EACCES))
  /\ (forall e,
        fst (index_find db path file) = e ->
        e = - ENOENT \/ e = - ENOTDIR \/ e = - EISDIR ->
        fst (vram_open db path flags) = e).
Proof.
  split.
  - intros t r -> Hw Hfile Hid.
    destruct (index_walk_resolved t ROOT_PARENT _ r Hw) as (trace & E & _).
    assert (Hlt : (0 <? id r) = true) by (apply Z.ltb_lt; exact Hid).
    unfold vram_open, index_find. rewrite E, Hfile, Hlt.
    cbn [filter_eqb andb negb]. rewrite Hlt.
    destruct (Z.land flags 3 =? O_RDONLY) eqn:Emode; cbn [fst].
    + apply Z.eqb_eq in Emode. split; [tauto|contradiction].
    + apply Z.eqb_neq in Emode. split; [|reflexivity].
      split; [discriminate|contradiction].
  - intros e He Herr. unfold vram_open.
    destruct (index_find db path file) as [entry trace].
    cbn [fst] in He. subst entry.
    destruct Herr as [ -> | [ -> | -> ] ]; reflexivity.
Qed.

Section Getattr.
Variables euid egid : Z.

(** C9. On a path that leads to a row [r] of a table with positive
    identifiers and [id] as its key, [vram_getattr] answers 0 and fills
    the attributes from [r]: mode [S_IFDIR | 0755] and 2 links for a
    directory, mode [S_IFREG | 0444] (no write bit) and 1 link for a
    file, the effective user and group as owner, and the size and the
    three times of [r] unchanged. *)
Theorem vram_getattr_reports (t : table) (path : string) (stbuf : stat)
        (r : row) :
  primary_key t -> positive_ids t ->
  walks t ROOT_PARENT (components path) r ->
  let ret := fst (fst (vram_getattr euid egid (Some t) path stbuf)) in
  let out := snd (fst (vram_getattr euid egid (Some t) path stbuf)) in
  ret = 0
  /\ st_mode out = (if is_dir r then 16877 else 33060)
  /\ Z.land (st_mode out) 61440 = (if is_dir r then S_IFDIR else S_IFREG)
  /\ (is_dir r = false -> Z.land (st_mode out) 146 = 0)
  /\ st_nlink out = (if is_dir r then 2 else 1)
  /\ st_uid out = euid /\ st_gid out = egid
  /\ st_size out = size r
  /\ st_atime out = atime r /\ st_mtime out = mtime r
  /\ st_ctime out = ctime r.
Proof.
  intros Hkey Hpos Hw ret out.
  assert (Hin : In r t) by (eapply walks_in; eassumption).
  assert (Hid : 0 < id r).
  { unfold positive_ids in Hpos. rewrite Forall_forall in Hpos. auto. }
  destruct (index_walk_resolved t ROOT_PARENT _ r Hw) as (trace & E & _).
  assert (Hlt : (0 <? id r) = true) by (apply Z.ltb_lt; exact Hid).
  subst ret out. unfold vram_getattr, index_find. rewrite E, Hlt.
  cbn [filter_eqb andb]. rewrite Hlt.
  rewrite (select_by_id_walked t r Hkey Hin).
  cbn [fst snd st_mode st_nlink st_uid st_gid st_size st_atime st_mtime
       st_ctime].
  unfold sqlite3_column_int64. fold (is_dir r).
  destruct (is_dir r); repeat split; intros; try discriminate; reflexivity.
Qed.

(** C10. On a table that can be queried, the empty path has no
    component: [index_find] asks for nothing and answers the sentinel
    [ROOT_PARENT], which is 0, under every filter; [vram_getattr] then
    answers 0 and leaves the attribute area as it was. *)
Theorem empty_path_is_sentinel (t : table) (filter : entry_filter_t)
        (stbuf : stat) :
  components EmptyString = []
  /\ index_find (Some t) EmptyString filter = (ROOT_PARENT, [])
  /\ ROOT_PARENT = 0
  /\ vram_getattr euid egid (Some t) EmptyString stbuf = (0, stbuf, []).
Proof. repeat split. Qed.
End Getattr.
End IndexFacts.

(** ** The statements at concrete inputs *)


Ltac walk_table :=
  vm_compute;
  repeat first
    [ apply walks_last; reflexivity
    | eapply walks_step; [reflexivity | reflexivity | ] ].

(** In [sample_table] the path "/docs/a.txt/x" goes through the file
    [a.txt]; the path "/docs" ends on a directory. *)
Lemma index_find_type_errors_witness :
  fst (Index.index_find (Some sample_table) "/docs/a.txt/x"
                        Index.entry_filter.all) = - Index.ENOTDIR
  /\ fst (Index.index_find (Some sample_table) "/docs"
                          Index.entry_filter.file) = - Index.EISDIR
  /\ fst (Index.index_find (Some sample_table) "/docs"
                          Index.entry_filter.directory) = 2.
Proof.
  assert (Hpos : positive_ids sample_table)
    by (repeat constructor).
  destruct (index_find_type_errors sample_table "/docs/a.txt/x"
                                   Index.entry_filter.all) as [Hnotdir _].
  destruct (index_find_type_errors sample_table "/docs"
                                   Index.entry_filter.file) as [_ Hisdir].
  destruct (index_find_type_errors sample_table "/docs"
                                   Index.entry_filter.directory) as [_ Hid].
  split; [|split].
  - apply (Hnotdir [""; "docs"; "a.txt"]%string ["x"%string]
                   (nth 2 sample_table Index.no_row));
      [reflexivity | discriminate | walk_table | reflexivity].
  - apply (Hisdir (nth 1 sample_table Index.no_row)); [walk_table | exact Hpos].
  - apply (Hid (nth 1 sample_table Index.no_row)); [walk_table | exact Hpos].
Defined.

(** C7, as stated, fails: resolving "/" on the fresh index asks the store
    for the empty name under the sentinel parent. *)
Lemma index_find_root_consumes_lookup :
  snd (Index.index_find (fst (Index.vram_init 0 0 0 1700000000)) "/"
                        Index.entry_filter.all)
  = [Index.Lookup Index.ROOT_PARENT ""]
  /\ snd (Index.index_find (fst (Index.vram_init 0 0 0 1700000000)) "/"
                          Index.entry_filter.all) <> [].
Proof. split; [reflexivity | discriminate]. Qed.

(** Opening "/docs/a.txt" of [sample_table]: read-only succeeds, write-only
    is refused; opening a name that does not exist answers [-ENOENT]. *)
Lemma vram_open_read_only_witness :
  fst (Index.vram_open (Some sample_table) "/docs/a.txt" 32768) = 0
  /\ fst (Index.vram_open (Some sample_table) "/docs/a.txt" 32769)
     = - Index.EACCES
  /\ fst (Index.vram_open (Some sample_table) "/docs/b.txt" 32768)
     = - Index.ENOENT.
Proof.
  destruct (vram_open_read_only (Some sample_table) "/docs/a.txt" 32768)
    as [Hro _].
  destruct (vram_open_read_only (Some sample_table) "/docs/a.txt" 32769)
    as [Hwo _].
  destruct (vram_open_read_only (Some sample_table) "/docs/b.txt" 32768)
    as [_ Herr].
  split; [|split].
  - apply (Hro sample_table (nth 2 sample_table Index.no_row));
      [reflexivity | walk_table | reflexivity | reflexivity | reflexivity].
  - apply (Hwo sample_table (nth 2 sample_table Index.no_row));
      [reflexivity | walk_table | reflexivity | reflexivity | discriminate].
  - apply Herr; [reflexivity | left; reflexivity].
Defined.

(** The attributes of "/docs/a.txt" and of "/docs" in [sample_table]. *)
Lemma vram_getattr_reports_witness :
  let file := snd (fst (Index.vram_getattr 1000 100 (Some sample_table)
                                           "/docs/a.txt" sample_stat)) in
  let docs := snd (fst (Index.vram_getattr 1000 100 (Some sample_table)
                                           "/docs" sample_stat)) in
  Index.st_mode file = 33060 /\ Index.st_nlink file = 1
  /\ Index.st_size file = 12 /\ Index.st_mtime file = 1700000005
  /\ Index.st_mode docs = 16877 /\ Index.st_nlink docs = 2
  /\ Index.st_uid docs = 1000 /\ Index.st_gid docs = 100.
Proof.
  intros file docs.
  assert (Hkey : primary_key sample_table)
    by (unfold primary_key; repeat constructor; simpl; intuition lia).
  assert (Hpos : positive_ids sample_table) by (repeat constructor).
  destruct (vram_getattr_reports 1000 100 sample_table "/docs/a.txt"
              sample_stat (nth 2 sample_table Index.no_row) Hkey Hpos)
    as (_ & Hmode & _ & _ & Hlinks & _ & _ & Hsize & _ & Hmtime & _);
    [walk_table|].
  destruct (vram_getattr_reports 1000 100 sample_table "/docs"
              sample_stat (nth 1 sample_table Index.no_row) Hkey Hpos)
    as (_ & Hmode' & _ & _ & Hlinks' & Huid & Hgid & _);
    [walk_table|].
  repeat split; assumption.
Defined.

(** * Further properties *)

(** ** Splitting a path *)

Section PathFacts.
Import Index Index.entry_filter.

(** One [getline] takes the first part off. *)
Lemma split_path_getline c s :
  split_path (String c s)
  = fst (getline (String c s)) :: split_path (snd (getline (String c s))).
Proof.
  revert c. induction s as [|c' s IH]; intros c.
  - cbn [getline split_path]. destruct (Ascii.eqb c "/"); reflexivity.
  - specialize (IH c').
    change (split_path (String c (String c' s)))
      with (if Ascii.eqb c "/" then EmptyString :: split_path (String c' s)
            else match split_path (String c' s) with
                 | [] => [String c EmptyString]
                 | p :: ps => String c p :: ps
                 end).
    change (getline (String c (String c' s)))
      with (if Ascii.eqb c "/" then (EmptyString, String c' s)
            else let '(part, stream') := getline (String c' s) in
                 (String c part, stream')).
    destruct (Ascii.eqb c "/"); [reflexivity|].
    rewrite IH. destruct (getline (String c' s)) as [p r]. reflexivity.
Qed.

Lemma parts_split_path fuel :
  forall s, (String.length s <= fuel)%nat -> parts fuel s = split_path s.
Proof.
  induction fuel as [|fuel IH]; intros s Hlen.
  - destruct s; [reflexivity | simpl in Hlen; lia].
  - destruct s as [|c s]; [reflexivity|].
    cbn [parts]. rewrite split_path_getline.
    pose proof (getline_shorter c s) as Hshort.
    destruct (getline (String c s)) as [p r]. cbn [fst snd] in *.
    f_equal. apply IH. simpl in Hlen. lia.
Qed.

(** The loop over [getline] computes [split_path]. *)
Lemma components_split_path path : components path = split_path path.
Proof. apply parts_split_path, Nat.le_refl. Qed.

Lemma split_path_nil s : split_path s = [] -> s = EmptyString.
Proof.
  destruct s as [|c s]; [reflexivity|]. cbn [split_path].
  destruct (Ascii.eqb c "/"); [discriminate|].
  destruct (split_path s); discriminate.
Qed.

Lemma split_path_root s : split_path s = [EmptyString] -> s = "/"%string.
Proof.
  destruct s as [|c s]; [discriminate|]. cbn [split_path].
  destruct (Ascii.eqb c "/") eqn:Ec.
  - intros H. injection H as H. apply split_path_nil in H. subst s.
    apply Ascii.eqb_eq in Ec. now subst c.
  - destruct (split_path s); discriminate.
Qed.

Lemma split_path_name n :
  slash_free n = true -> n <> EmptyString -> split_path n = [n].
Proof.
  induction n as [|c n IH]; intros Hfree Hne; [congruence|].
  cbn [slash_free] in Hfree. apply andb_true_iff in Hfree as [Hc Hfree].
  apply negb_true_iff in Hc. cbn [split_path]. rewrite Hc.
  destruct n as [|c' n]; [reflexivity|].
  rewrite IH by (assumption || discriminate). reflexivity.
Qed.

Lemma split_path_name_slash n t :
  slash_free n = true ->
  split_path (n ++ String "/" t) = n :: split_path t.
Proof.
  induction n as [|c n IH]; intros Hfree; [reflexivity|].
  cbn [slash_free] in Hfree. apply andb_true_iff in Hfree as [Hc Hfree].
  apply negb_true_iff in Hc. cbn [append split_path]. rewrite Hc.
  rewrite IH by assumption. reflexivity.
Qed.

Lemma split_path_of n ns :
  Forall (fun m => slash_free m = true) (n :: ns) ->
  last (n :: ns) EmptyString <> EmptyString ->
  split_path (n ++ path_of ns) = n :: ns.
Proof.
  revert n. induction ns as [|m ns IH]; intros n Hfree Hlast.
  - cbn [path_of]. replace (n ++ EmptyString)%string with n by (clear; induction n as [|c n IHn]; simpl; congruence). apply split_path_name.
    + now inversion Hfree.
    + exact Hlast.
  - cbn [path_of]. inversion Hfree as [|? ? Hn Hrest]; subst.
    rewrite split_path_name_slash by exact Hn. f_equal.
    apply IH; [exact Hrest | exact Hlast].
Qed.

Lemma split_path_append_slash s t :
  s <> EmptyString -> ends_with_slash s = false ->
  split_path (s ++ String "/" t) = split_path s ++ split_path t.
Proof.
  induction s as [|c r IH]; intros Hne Hend; [congruence|].
  destruct r as [|c' r'].
  - cbn [ends_with_slash] in Hend. cbn [append split_path].
    rewrite Hend, Ascii.eqb_refl. reflexivity.
  - assert (Hr : ends_with_slash (String c' r') = false) by exact Hend.
    specialize (IH ltac:(discriminate) Hr).
    change (split_path (String c (String c' r') ++ String "/" t))
      with (if Ascii.eqb c "/"
            then EmptyString :: split_path (String c' r' ++ String "/" t)
            else match split_path (String c' r' ++ String "/" t) with
                 | [] => [String c EmptyString]
                 | p :: ps => String c p :: ps
                 end).
    change (split_path (String c (String c' r')))
      with (if Ascii.eqb c "/" then EmptyString :: split_path (String c' r')
            else match split_path (String c' r') with
                 | [] => [String c EmptyString]
                 | p :: ps => String c p :: ps
                 end).
    rewrite IH. destruct (Ascii.eqb c "/"); [reflexivity|].
    destruct (split_path (String c' r')) as [|p ps] eqn:Er;
      [apply split_path_nil in Er; discriminate | reflexivity].
Qed.

(** X1. Round trip between a chain of names and its path: when no name
    holds a separator and the last name is not empty, the components of
    the path written with a separator before each name are the empty
    component followed by the names. *)
Theorem components_path_of (names : list string) :
  names <> [] ->
  Forall (fun n => slash_free n = true) names ->
  last names EmptyString <> EmptyString ->
  components (path_of names) = EmptyString :: names.
Proof.
  intros Hne Hfree Hlast. rewrite components_split_path.
  destruct names as [|n ns]; [congruence|].
  cbn [path_of split_path]. rewrite Ascii.eqb_refl. f_equal.
  apply split_path_of; assumption.
Qed.

(** X2. A separator at the end of a path that is not empty and does not
    already end with one is ignored: the path has the same components
    and [index_find] gives the same answer and asks for the same rows,
    under every filter and on every store. *)
Theorem index_find_trailing_separator (db : sqlite_handle) (path : string)
        (filter : entry_filter_t) :
  path <> EmptyString -> ends_with_slash path = false ->
  components (path ++ "/") = components path
  /\ index_find db (path ++ "/") filter = index_find db path filter.
Proof.
  intros Hne Hend.
  assert (Hc : components (path ++ "/") = components path).
  { rewrite !components_split_path.
    rewrite split_path_append_slash by assumption. apply app_nil_r. }
  split; [exact Hc|]. unfold index_find. now rewrite Hc.
Qed.

(** The components of the path of an entry under a directory. *)
Lemma components_child path n :
  path <> EmptyString -> ends_with_slash path = false ->
  slash_free n = true -> n <> EmptyString ->
  components (path ++ String "/" n) = components path ++ [n].
Proof.
  intros Hne Hend Hfree Hn. rewrite !components_split_path.
  rewrite split_path_append_slash by assumption.
  rewrite (split_path_name n) by assumption. reflexivity.
Qed.

Lemma components_root_child n :
  slash_free n = true -> n <> EmptyString ->
  components (String "/" n) = components "/" ++ [n].
Proof.
  intros Hfree Hn. rewrite !components_split_path.
  cbn [split_path]. rewrite Ascii.eqb_refl. cbn [app]. f_equal.
  now apply split_path_name.
Qed.
End PathFacts.

Lemma components_path_of_witness :
  Index.components (path_of ["docs"; ""; "a.txt"]%string)
  = [""; "docs"; ""; "a.txt"]%string.
Proof.
  apply (components_path_of ["docs"; ""; "a.txt"]%string).
  - discriminate.
  - repeat constructor.
  - discriminate.
Defined.

Lemma index_find_trailing_separator_witness :
  Index.components ("/docs/a.txt" ++ "/") = Index.components "/docs/a.txt"
  /\ Index.index_find (Some sample_table) ("/docs/a.txt" ++ "/")
                      Index.entry_filter.file
     = Index.index_find (Some sample_table) "/docs/a.txt"
                        Index.entry_filter.file.
Proof.
  apply (index_find_trailing_separator (Some sample_table) "/docs/a.txt"
           Index.entry_filter.file).
  - discriminate.
  - reflexivity.
Defined.

(** ** Resolving paths *)

Section ResolveFacts.
Import Index Index.entry_filter.

Lemma index_walk_not_dir t p ps e :
  index_walk t (p :: ps) e false = (- ENOTDIR, false, []).
Proof. reflexivity. Qed.

(** Where the loop of [index_find] can end when it starts in a directory
    and has a name to follow. *)
Lemma index_walk_outcome t ps :
  forall e, ps <> [] ->
    fst (fst (index_walk t ps e true)) = - ENOENT
    \/ fst (fst (index_walk t ps e true)) = - ENOTDIR
    \/ exists r, walks t e ps r
                 /\ fst (fst (index_walk t ps e true)) = id r
                 /\ snd (fst (index_walk t ps e true)) = is_dir r.
Proof.
  induction ps as [|p ps IH]; intros e Hne; [congruence|].
  cbn [index_walk negb].
  destruct (select_entry t e p) as [r|] eqn:Esel; [|left; reflexivity].
  unfold sqlite3_column_int64.
  destruct ps as [|q ps].
  - right; right. exists r. cbn [index_walk fst snd].
    split; [now constructor | split; reflexivity].
  - destruct (is_dir r) eqn:Edir.
    + destruct (IH (id r) ltac:(discriminate)) as [H|[H|(r' & Hw & Hid & Hd)]];
        destruct (index_walk t (q :: ps) (id r) true) as [[e' d'] tr];
        cbn [fst snd] in *.
      * left; exact H.
      * right; left; exact H.
      * right; right. exists r'. split; [|split; assumption].
        eapply walks_step; eassumption.
    + right; left. reflexivity.
Qed.

Lemma walks_positive t e ps r :
  positive_ids t -> walks t e ps r -> 0 < id r.
Proof.
  intros Hpos Hw. unfold positive_ids in Hpos. rewrite Forall_forall in Hpos.
  apply Hpos. eapply walks_in; eassumption.
Qed.

Lemma components_nil path : components path = [] -> path = EmptyString.
Proof. rewrite components_split_path. apply split_path_nil. Qed.

(** How a path resolves, for all filters at once. *)
Lemma index_find_resolution t path :
  positive_ids t ->
  (path = EmptyString
   /\ forall f, fst (index_find (Some t) path f) = 0)
  \/ (path <> EmptyString
      /\ forall f, fst (index_find (Some t) path f) = - ENOENT)
  \/ (path <> EmptyString
      /\ forall f, fst (index_find (Some t) path f) = - ENOTDIR)
  \/ (path <> EmptyString
      /\ exists r, walks t ROOT_PARENT (components path) r /\ 0 < id r
                   /\ forall f,
                       fst (index_find (Some t) path f)
                       = match f, is_dir r with
                         | directory, false => - ENOTDIR
                         | file, true => - EISDIR
                         | _, _ => id r
                         end).
Proof.
  intros Hpos. unfold index_find.
  destruct (components path) as [|p ps] eqn:Ec.
  - left. apply components_nil in Ec. split; [exact Ec|]. reflexivity.
  - right.
    assert (Hne : path <> EmptyString) by (intros ->; discriminate).
    destruct (index_walk_outcome t (p :: ps) ROOT_PARENT ltac:(discriminate))
      as [H|[H|(r & Hw & Hid & Hd)]];
      destruct (index_walk t (p :: ps) ROOT_PARENT true) as [[e d] tr];
      cbn [fst snd] in *; subst.
    + left. split; [exact Hne | reflexivity].
    + right; left. split; [exact Hne | reflexivity].
    + right; right. split; [exact Hne|]. exists r.
      pose proof (walks_positive _ _ _ _ Hpos Hw) as Hid.
      split; [exact Hw|]. split; [exact Hid|]. intros f.
      replace (0 <? id r) with true by (symmetry; now apply Z.ltb_lt).
      destruct f, (is_dir r); reflexivity.
Qed.

(** X3. What [index_find] can answer on a table with positive identifiers:
    0 exactly for the empty path; otherwise [-ENOENT], [-ENOTDIR],
    [-EISDIR] (only under the filter [file]), or the identifier of the row
    the components lead to, which then has the kind the filter asks for.
    It answers nothing else. *)
Theorem index_find_answers (t : table) (path : string)
        (filter : entry_filter_t) :
  positive_ids t ->
  let e := fst (index_find (Some t) path filter) in
  (e = 0 <-> path = EmptyString)
  /\ (e = 0 \/ e = - ENOENT \/ e = - ENOTDIR
      \/ (e = - EISDIR /\ filter = file)
      \/ (0 < e
          /\ exists r, walks t ROOT_PARENT (components path) r
                       /\ id r = e
                       /\ (filter = directory -> is_dir r = true)
                       /\ (filter = file -> is_dir r = false))).
Proof.
  intros Hpos e. subst e. unfold index_find.
  destruct (components path) as [|p ps] eqn:Ec.
  - apply components_nil in Ec. subst path. cbn [index_walk fst].
    split; [tauto | left; reflexivity].
  - assert (Hne : path <> EmptyString) by (intros ->; discriminate).
    destruct (index_walk_outcome t (p :: ps) ROOT_PARENT ltac:(discriminate))
      as [H|[H|(r & Hw & Hid & Hd)]];
      destruct (index_walk t (p :: ps) ROOT_PARENT true) as [[e d] tr];
      cbn [fst snd] in *; subst.
    + cbn. split; [split; [discriminate | contradiction]|]. auto.
    + cbn. split; [split; [discriminate | contradiction]|]. auto.
    + pose proof (walks_positive _ _ _ _ Hpos Hw) as Hid.
      assert (Hlt : (0 <? id r) = true) by (apply Z.ltb_lt; exact Hid).
      rewrite Hlt.
      destruct filter, (is_dir r) eqn:Ed; cbn [filter_eqb andb negb fst].
      all: split; [split; [try discriminate; lia | contradiction]|].
      all: try (right; right; right; right; split; [exact Hid|]; exists r;
                repeat split; try assumption; try discriminate; congruence).
      * right; right; left. reflexivity.
      * right; right; right; left. split; reflexivity.
Qed.

(** X4. The first name that is not found ends the resolution: when the
    resolution stands in a directory after some components and the next
    component is not the name of a row under it, [index_find] answers
    [-ENOENT] under every filter, whatever components follow, and the last
    row it asked for is that name. *)
Theorem index_find_not_found (t : table) (path : string)
        (filter : entry_filter_t) (pre rest : list string) (n : string)
        (e : Z) :
  components path = pre ++ n :: rest ->
  stands t pre e ->
  select_entry t e n = None ->
  fst (index_find (Some t) path filter) = - ENOENT
  /\ lookup_names (snd (index_find (Some t) path filter)) = pre ++ [n].
Proof.
  intros Hc Hst Hnone. unfold index_find. rewrite Hc.
  destruct Hst as [[-> ->]|(r & Hw & Hdir & ->)].
  - cbn [app index_walk negb]. rewrite Hnone. split; reflexivity.
  - destruct (index_walk_follows t ROOT_PARENT pre r Hw (n :: rest))
      as (trace & Ewalk & Hnames).
    rewrite Ewalk, Hdir. cbn [index_walk negb]. rewrite Hnone.
    cbn [fst snd]. split; [reflexivity|].
    unfold lookup_names in *. rewrite flat_map_app, Hnames. reflexivity.
Qed.

Lemma select_entry_found t e n c :
  In c t -> parent c = e -> name c = n ->
  exists c', select_entry t e n = Some c'
             /\ In c' t /\ parent c' = e /\ name c' = n.
Proof.
  intros Hin Hp Hn. unfold select_entry.
  destruct (find (fun r => (parent r =? e) && String.eqb (name r) n) t)
    as [c'|] eqn:Ef.
  - exists c'. apply find_some in Ef as [Hin' Hb].
    apply andb_true_iff in Hb as [Hb1 Hb2].
    apply Z.eqb_eq in Hb1. apply String.eqb_eq in Hb2. auto.
  - exfalso. apply (find_none _ _ Ef) in Hin.
    rewrite Hp, Hn, Z.eqb_refl, String.eqb_refl in Hin. discriminate.
Qed.

Lemma walks_snoc t e ps r n c :
  walks t e ps r -> is_dir r = true ->
  select_entry t (id r) n = Some c ->
  walks t e (ps ++ [n]) c.
Proof.
  induction 1 as [e m r Hsel | e m r ps r' Hsel Hdir Hw IH]; intros Hd Hc.
  - cbn [app]. eapply walks_step; [eassumption | assumption |].
    now constructor.
  - cbn [app]. eapply walks_step; [eassumption | assumption | auto].
Qed.

(** X5. An entry is found through its directory: when the resolution
    stands in the directory [e] after the components of [path], and [c]
    is a row of the table with parent [e], then a path whose components
    are those of [path] followed by the name of [c] resolves, without
    filter, to the identifier of [c], provided no two rows share parent
    and name and identifiers are positive. *)
Theorem index_find_child (t : table) (path path' : string) (e : Z)
        (c : row) :
  positive_ids t -> unique_siblings t ->
  stands t (components path) e ->
  In c t -> parent c = e ->
  components path' = components path ++ [name c] ->
  fst (index_find (Some t) path' all) = id c.
Proof.
  intros Hpos Huniq Hst Hin Hp Hc'.
  destruct (select_entry_found t e (name c) c Hin Hp eq_refl)
    as (c' & Hsel & Hin' & Hp' & Hn').
  assert (c' = c) by (apply Huniq; congruence). subst c'.
  assert (Hw : walks t ROOT_PARENT (components path') c).
  { rewrite Hc'. destruct Hst as [[-> ->]|(r & Hw & Hdir & ->)].
    - cbn [app]. now constructor.
    - eapply walks_snoc; eassumption. }
  destruct (index_walk_resolved t ROOT_PARENT _ c Hw) as (trace & E & _).
  unfold index_find. rewrite E.
  replace (0 <? id c) with true
    by (symmetry; apply Z.ltb_lt; eapply walks_positive; eassumption).
  reflexivity.
Qed.
End ResolveFacts.

(** ** The operations of the file system *)

Section OperationFacts.
Import Index Index.entry_filter.

Lemma walks_functional t e ps r1 :
  walks t e ps r1 -> forall r2, walks t e ps r2 -> r1 = r2.
Proof.
  induction 1 as [e n r Hsel | e n r ps r' Hsel Hdir Hw IH]; intros r2 H2.
  - inversion H2 as [? ? ? Hsel2 | ? ? ? ? ? Hsel2 _ Hw2]; subst.
    + congruence.
    + apply walks_nonempty in Hw2. congruence.
  - inversion H2 as [? ? ? Hsel2 | ? ? r0 ? ? Hsel2 _ Hw2]; subst.
    + apply walks_nonempty in Hw. congruence.
    + assert (r0 = r) by congruence. subst r0. now apply IH.
Qed.

Lemma walks_snoc_inv t e ps n c :
  walks t e (ps ++ [n]) c -> forall r,
  walks t e ps r ->
  is_dir r = true /\ select_entry t (id r) n = Some c.
Proof.
  intros Hc r Hr. revert c Hc.
  induction Hr as [e m r Hsel | e m r ps r' Hsel Hdir Hw IH]; intros c Hc.
  - cbn [app] in Hc.
    inversion Hc as [|? ? r0 ? ? Hsel0 Hdir0 Hw0]; subst.
    assert (r0 = r) by congruence. subst r0.
    inversion Hw0 as [? ? ? Hsel1 | ? ? ? ? ? _ _ Hw1]; subst.
    + auto.
    + apply walks_nonempty in Hw1. congruence.
  - cbn [app] in Hc.
    inversion Hc as [? ? ? Hsel0 Hnil | ? ? r0 ? ? Hsel0 Hdir0 Hw0]; subst.
    + destruct ps; discriminate.
    + assert (r0 = r) by congruence. subst r0. now apply IH.
Qed.

(** X6. The index that [vram_init] leaves holds the root and nothing
    else: every path other than the empty one and the separator alone
    resolves to [-ENOENT], under every filter, and listing the root adds
    only the two entries "." and "..". *)
Theorem fresh_index_only_root (now : Z) (path : string)
        (filter : entry_filter_t) (buf : list string) :
  path <> EmptyString -> path <> "/"%string ->
  fst (index_find (fst (vram_init 0 0 0 now)) path filter) = - ENOENT
  /\ fst (vram_readdir (fst (vram_init 0 0 0 now)) "/" buf)
     = (0, buf ++ ["."; ".."]%string).
Proof.
  intros Hne Hroot. split; [|reflexivity].
  cbn [vram_init Z.eqb negb fst]. unfold index_find.
  destruct (components path) as [|p ps] eqn:Ec;
    [apply components_nil in Ec; contradiction|].
  destruct p as [|c p].
  - destruct ps as [|q ps].
    + rewrite components_split_path in Ec. apply split_path_root in Ec.
      contradiction.
    + reflexivity.
  - reflexivity.
Qed.

Lemma vram_readdir_walked t path buf r :
  positive_ids t ->
  walks t ROOT_PARENT (components path) r ->
  fst (vram_readdir (Some t) path buf)
  = if is_dir r
    then (0, buf ++ ["."; ".."]%string ++ map name (children t (id r)))
    else (- ENOTDIR, buf).
Proof.
  intros Hpos Hw.
  pose proof (walks_positive _ _ _ _ Hpos Hw) as Hid.
  assert (Hlt : (0 <? id r) = true) by (apply Z.ltb_lt; exact Hid).
  destruct (index_walk_resolved t ROOT_PARENT _ r Hw) as (trace & E & _).
  unfold vram_readdir, index_find. rewrite E, Hlt.
  destruct (is_dir r); cbn [filter_eqb andb negb]; [rewrite Hlt|];
    reflexivity.
Qed.

Lemma vram_open_walked t path flags r :
  positive_ids t ->
  walks t ROOT_PARENT (components path) r ->
  fst (vram_open (Some t) path flags)
  = if is_dir r then - EISDIR
    else if Z.land flags 3 =? O_RDONLY then 0 else - EACCES.
Proof.
  intros Hpos Hw.
  pose proof (walks_positive _ _ _ _ Hpos Hw) as Hid.
  assert (Hlt : (0 <? id r) = true) by (apply Z.ltb_lt; exact Hid).
  destruct (index_walk_resolved t ROOT_PARENT _ r Hw) as (trace & E & _).
  unfold vram_open, index_find. rewrite E, Hlt.
  destruct (is_dir r); cbn [filter_eqb andb negb]; [reflexivity|].
  rewrite Hlt. destruct (Z.land flags 3 =? O_RDONLY); reflexivity.
Qed.

(** X7. Listing a directory: on a path that leads to a directory row,
    [vram_readdir] answers 0 and appends ".", ".." and then the names of
    the rows whose parent is that directory, in the order of the table; a
    name is among them exactly when the path of the directory followed by
    that name resolves to an entry.  On a path that leads to a file it
    answers [-ENOTDIR] and appends nothing. *)
Theorem vram_readdir_lists_children (t : table) (path : string)
        (buf : list string) (r : row) :
  positive_ids t ->
  walks t ROOT_PARENT (components path) r ->
  (is_dir r = true ->
   fst (vram_readdir (Some t) path buf)
   = (0, buf ++ ["."; ".."]%string ++ map name (children t (id r)))
   /\ forall n path',
       components path' = components path ++ [n] ->
       (In n (map name (children t (id r)))
        <-> 0 < fst (index_find (Some t) path' all)))
  /\ (is_dir r = false ->
      fst (vram_readdir (Some t) path buf) = (- ENOTDIR, buf)).
Proof.
  intros Hpos Hw.
  pose proof (walks_positive _ _ _ _ Hpos Hw) as Hid.
  assert (Hlt : (0 <? id r) = true) by (apply Z.ltb_lt; exact Hid).
  destruct (index_walk_resolved t ROOT_PARENT _ r Hw) as (trace & E & _).
  split; intros Hdir.
  - split.
    + unfold vram_readdir, index_find. rewrite E, Hdir, Hlt.
      cbn [filter_eqb andb negb]. rewrite Hlt. reflexivity.
    + intros n path' Hc'. split.
      * intros Hin. apply in_map_iff in Hin as (c & Hn & Hc).
        unfold children in Hc. apply filter_In in Hc as [Hin Hp].
        apply Z.eqb_eq in Hp.
        destruct (select_entry_found t (id r) n c Hin Hp Hn)
          as (c' & Hsel & _).
        assert (Hw' : walks t ROOT_PARENT (components path') c')
          by (rewrite Hc'; eapply walks_snoc; eassumption).
        destruct (index_walk_resolved t ROOT_PARENT _ c' Hw')
          as (trace' & E' & _).
        pose proof (walks_positive _ _ _ _ Hpos Hw') as Hid'.
        unfold index_find. rewrite E'.
        replace (0 <? id c') with true by (symmetry; now apply Z.ltb_lt).
        exact Hid'.
      * intros Hfound.
        destruct (index_find_resolution t path' Hpos)
          as [[_ H]|[[_ H]|[[_ H]|(_ & c & Hw' & _)]]];
          try (rewrite H in Hfound; unfold ENOENT, ENOTDIR in *; lia).
        rewrite Hc' in Hw'.
        destruct (walks_snoc_inv _ _ _ _ _ Hw' r Hw) as [_ Hsel].
        unfold select_entry in Hsel. apply find_some in Hsel as [Hin Hb].
        apply andb_true_iff in Hb as [Hb1 Hb2].
        apply String.eqb_eq in Hb2. apply in_map_iff. exists c.
        split; [exact Hb2|]. unfold children. apply filter_In. auto.
  - unfold vram_readdir, index_find. rewrite E, Hdir, Hlt.
    cbn [filter_eqb andb negb]. reflexivity.
Qed.

(** X8. What [vram_open] answers on a table with positive identifiers,
    for a path that is not empty: 0 exactly when the path leads to a file
    and the access mode is [O_RDONLY]; [-EACCES] exactly when it leads to
    a file and the access mode is another one; [-EISDIR] exactly when it
    leads to a directory, whatever the flags; otherwise [-ENOENT] or
    [-ENOTDIR].  Only the two access-mode bits of the flags are looked
    at. *)
Theorem vram_open_answers (t : table) (path : string) (flags : Z) :
  positive_ids t -> path <> EmptyString ->
  let ret := fst (vram_open (Some t) path flags) in
  (ret = 0 <-> exists r, walks t ROOT_PARENT (components path) r
                         /\ is_dir r = false /\ Z.land flags 3 = O_RDONLY)
  /\ (ret = - EACCES <-> exists r, walks t ROOT_PARENT (components path) r
                                   /\ is_dir r = false
                                   /\ Z.land flags 3 <> O_RDONLY)
  /\ (ret = - EISDIR <-> exists r, walks t ROOT_PARENT (components path) r
                                   /\ is_dir r = true)
  /\ (ret = 0 \/ ret = - EACCES \/ ret = - EISDIR
      \/ ret = - ENOENT \/ ret = - ENOTDIR)
  /\ vram_open (Some t) path flags
     = vram_open (Some t) path (Z.land flags 3).
Proof.
  intros Hpos Hne ret.
  assert (Hmask : vram_open (Some t) path flags
                  = vram_open (Some t) path (Z.land flags 3)).
  { unfold vram_open. destruct (index_find (Some t) path file) as [e tr].
    rewrite <- Z.land_assoc. reflexivity. }
  refine ((fun H => conj (proj1 H) (conj (proj1 (proj2 H))
            (conj (proj1 (proj2 (proj2 H)))
               (conj (proj2 (proj2 (proj2 H))) Hmask)))) _).
  clear Hmask.
  assert (Hnowalk : forall err, (err = ENOENT \/ err = ENOTDIR) ->
            (forall f, fst (index_find (Some t) path f) = - err) ->
            forall r, ~ walks t ROOT_PARENT (components path) r).
  { intros err Herr Hall r Hw. specialize (Hall all).
    destruct (index_walk_resolved t ROOT_PARENT _ r Hw) as (tr & E & _).
    pose proof (walks_positive _ _ _ _ Hpos Hw) as Hid.
    unfold index_find in Hall. rewrite E in Hall.
    replace (0 <? id r) with true in Hall
      by (symmetry; now apply Z.ltb_lt).
    cbn [filter_eqb andb fst] in Hall.
    unfold ENOENT, ENOTDIR in *. lia. }
  subst ret. unfold vram_open in *.
  destruct (index_find_resolution t path Hpos)
    as [[He _]|[[_ Hall]|[[_ Hall]|(_ & r & Hw & Hid & Hall)]]];
    [contradiction| | |].
  - pose proof (Hall file) as Hf.
    pose proof (Hnowalk ENOENT ltac:(auto) Hall) as Hno.
    destruct (index_find (Some t) path file) as [e tr]. cbn [fst] in Hf.
    subst e. cbn [fst Z.ltb]. change (to_int (- ENOENT)) with (- ENOENT).
    split; [|split; [|split; [|auto 6]]];
      (split; [discriminate|]);
      intros (r & Hw & _); exfalso; eapply Hno; eassumption.
  - pose proof (Hall file) as Hf.
    pose proof (Hnowalk ENOTDIR ltac:(auto) Hall) as Hno.
    destruct (index_find (Some t) path file) as [e tr]. cbn [fst] in Hf.
    subst e. cbn [fst Z.ltb]. change (to_int (- ENOTDIR)) with (- ENOTDIR).
    split; [|split; [|split; [|auto 6]]];
      (split; [discriminate|]);
      intros (r & Hw & _); exfalso; eapply Hno; eassumption.
  - pose proof (Hall file) as Hf.
    assert (Hsame : forall r', walks t ROOT_PARENT (components path) r' ->
                               r' = r)
      by (intros r' Hw'; eapply walks_functional; eassumption).
    destruct (index_find (Some t) path file) as [e tr]. cbn [fst] in Hf.
    subst e. destruct (is_dir r) eqn:Edir.
    + cbn [fst Z.ltb]. change (to_int (- EISDIR)) with (- EISDIR).
      split; [|split; [|split; [|auto 6]]].
      * split; [discriminate|].
        intros (r' & Hw' & Hd' & _). apply Hsame in Hw'. congruence.
      * split; [discriminate|].
        intros (r' & Hw' & Hd' & _). apply Hsame in Hw'. congruence.
      * split; [intros _; exists r; auto | reflexivity].
    + replace (0 <? id r) with true by (symmetry; now apply Z.ltb_lt).
      destruct (Z.land flags 3 =? O_RDONLY) eqn:Emode; cbn [fst].
      * apply Z.eqb_eq in Emode.
        split; [|split; [|split; [|auto 6]]].
        -- split; [intros _; exists r; auto | reflexivity].
        -- split; [discriminate|].
           intros (r' & _ & _ & Hm). contradiction.
        -- split; [discriminate|].
           intros (r' & Hw' & Hd'). apply Hsame in Hw'. congruence.
      * apply Z.eqb_neq in Emode.
        split; [|split; [|split; [|auto 6]]].
        -- split; [discriminate|].
           intros (r' & _ & _ & Hm). contradiction.
        -- split; [intros _; exists r; auto | reflexivity].
        -- split; [discriminate|].
           intros (r' & Hw' & Hd'). apply Hsame in Hw'. congruence.
Qed.

Section GetattrFacts.
Variables euid egid : Z.

(** X9. What [vram_getattr] answers on a table with positive identifiers:
    0, [-ENOENT] or [-ENOTDIR] and nothing else (never [-EISDIR]); 0
    exactly for the empty path and for paths that lead to a row.  When
    the answer is not 0 the attribute area is left as it was.  When a
    row was found every field is written: the fields the code does not
    set are zero, owner and group are the effective ones, and mode and
    link count are those of a directory or those of a read-only file. *)
Theorem vram_getattr_answers (t : table) (path : string) (stbuf : stat) :
  positive_ids t ->
  let ret := fst (fst (vram_getattr euid egid (Some t) path stbuf)) in
  let out := snd (fst (vram_getattr euid egid (Some t) path stbuf)) in
  (ret = 0 \/ ret = - ENOENT \/ ret = - ENOTDIR)
  /\ (ret = 0 <-> path = EmptyString
                  \/ exists r, walks t ROOT_PARENT (components path) r)
  /\ (ret <> 0 -> out = stbuf)
  /\ (ret = 0 -> path <> EmptyString ->
      st_dev out = 0 /\ st_ino out = 0 /\ st_rdev out = 0
      /\ st_blksize out = 0 /\ st_blocks out = 0
      /\ st_uid out = euid /\ st_gid out = egid
      /\ ((st_mode out = 16877 /\ st_nlink out = 2)
          \/ (st_mode out = 33060 /\ st_nlink out = 1))).
Proof.
  intros Hpos ret out. subst ret out. unfold vram_getattr.
  assert (Hnowalk : forall err, (err = ENOENT \/ err = ENOTDIR) ->
            fst (index_find (Some t) path all) = - err ->
            forall r, ~ walks t ROOT_PARENT (components path) r).
  { intros err Herr Hall r Hw.
    destruct (index_walk_resolved t ROOT_PARENT _ r Hw) as (tr & E & _).
    pose proof (walks_positive _ _ _ _ Hpos Hw) as Hid.
    unfold index_find in Hall. rewrite E in Hall.
    replace (0 <? id r) with true in Hall
      by (symmetry; now apply Z.ltb_lt).
    cbn [filter_eqb andb fst] in Hall.
    unfold ENOENT, ENOTDIR in *. lia. }
  destruct (index_find_resolution t path Hpos)
    as [[He Hall]|[[Hne Hall]|[[Hne Hall]|(Hne & r & Hw & Hid & Hall)]]];
    specialize (Hall all).
  - destruct (index_find (Some t) path all) as [e tr]. cbn [fst] in Hall.
    subst e. cbn [fst snd Z.ltb].
    split; [auto|]. split; [tauto|]. split; [reflexivity | contradiction].
  - pose proof (Hnowalk ENOENT ltac:(auto) Hall) as Hno.
    destruct (index_find (Some t) path all) as [e tr]. cbn [fst] in Hall.
    subst e. cbn [fst snd Z.ltb]. change (to_int (- ENOENT)) with (- ENOENT).
    split; [auto|]. split; [|split; [reflexivity | discriminate]].
    split; [discriminate|]. intros [He|(r & Hw)]; [contradiction|].
    exfalso; eapply Hno; eassumption.
  - pose proof (Hnowalk ENOTDIR ltac:(auto) Hall) as Hno.
    destruct (index_find (Some t) path all) as [e tr]. cbn [fst] in Hall.
    subst e. cbn [fst snd Z.ltb]. change (to_int (- ENOTDIR)) with (- ENOTDIR).
    split; [auto|]. split; [|split; [reflexivity | discriminate]].
    split; [discriminate|]. intros [He|(r & Hw)]; [contradiction|].
    exfalso; eapply Hno; eassumption.
  - destruct (index_find (Some t) path all) as [e tr]. cbn [fst] in Hall.
    subst e.
    replace (match is_dir r with true | false => id r end) with (id r)
      by (destruct (is_dir r); reflexivity).
    replace (0 <? id r) with true by (symmetry; now apply Z.ltb_lt).
    cbn [fst snd st_dev st_ino st_rdev st_blksize st_blocks st_uid st_gid
         st_mode st_nlink].
    split; [auto|]. split; [split; [eauto | reflexivity]|].
    split; [congruence|]. intros _ _.
    repeat (split; [reflexivity|]).
    destruct (negb (sqlite3_column_int _ =? 0)); [left | right];
      split; reflexivity.
Qed.

(** The attributes [vram_getattr] reports for the row a path leads to. *)
Lemma vram_getattr_walked t path stbuf r :
  positive_ids t -> primary_key t ->
  walks t ROOT_PARENT (components path) r ->
  fst (fst (vram_getattr euid egid (Some t) path stbuf)) = 0
  /\ st_mode (snd (fst (vram_getattr euid egid (Some t) path stbuf)))
     = if is_dir r then 16877 else 33060.
Proof.
  intros Hpos Hkey Hw.
  pose proof (walks_positive _ _ _ _ Hpos Hw) as Hid.
  assert (Hlt : (0 <? id r) = true) by (apply Z.ltb_lt; exact Hid).
  destruct (index_walk_resolved t ROOT_PARENT _ r Hw) as (trace & E & _).
  unfold vram_getattr, index_find. rewrite E, Hlt.
  cbn [filter_eqb andb]. rewrite Hlt.
  rewrite (select_by_id_walked t r Hkey (walks_in _ _ _ _ Hw)).
  cbn [fst snd st_mode]. fold (is_dir r).
  destruct (is_dir r); split; reflexivity.
Qed.

(** X10. The three operations agree on the kind of an entry.  On a table
    with positive identifiers and [id] as key, for a path that is not
    empty: [vram_readdir] answers 0 exactly when [vram_getattr] answers 0
    and reports the mode of a directory, and [vram_open] for reading
    answers 0 exactly when [vram_getattr] answers 0 and reports the mode
    of a file. *)
Theorem operations_agree_on_kind (t : table) (path : string)
        (stbuf : stat) (buf : list string) :
  positive_ids t -> primary_key t -> path <> EmptyString ->
  let ret := fst (fst (vram_getattr euid egid (Some t) path stbuf)) in
  let out := snd (fst (vram_getattr euid egid (Some t) path stbuf)) in
  (fst (fst (vram_readdir (Some t) path buf)) = 0
   <-> ret = 0 /\ st_mode out = 16877)
  /\ (fst (vram_open (Some t) path O_RDONLY) = 0
      <-> ret = 0 /\ st_mode out = 33060).
Proof.
  intros Hpos Hkey Hne ret out. subst ret out.
  destruct (index_find_resolution t path Hpos)
    as [[He _]|[[_ Hall]|[[_ Hall]|(_ & r & Hw & _)]]]; [contradiction| | |].
  - (* no such entry *)
    pose proof (Hall all) as Ha. pose proof (Hall directory) as Hd.
    pose proof (Hall file) as Hf.
    unfold vram_getattr, vram_readdir, vram_open.
    destruct (index_find (Some t) path all) as [ea ta].
    destruct (index_find (Some t) path directory) as [ed td].
    destruct (index_find (Some t) path file) as [ef tf].
    cbn [fst] in Ha, Hd, Hf. subst ea ed ef. cbn [fst snd Z.ltb].
    split; split; try discriminate; intros [H _]; discriminate H.
  - (* a file on the way *)
    pose proof (Hall all) as Ha. pose proof (Hall directory) as Hd.
    pose proof (Hall file) as Hf.
    unfold vram_getattr, vram_readdir, vram_open.
    destruct (index_find (Some t) path all) as [ea ta].
    destruct (index_find (Some t) path directory) as [ed td].
    destruct (index_find (Some t) path file) as [ef tf].
    cbn [fst] in Ha, Hd, Hf. subst ea ed ef. cbn [fst snd Z.ltb].
    split; split; try discriminate; intros [H _]; discriminate H.
  - destruct (vram_getattr_walked t path stbuf r Hpos Hkey Hw)
      as [Hret Hmode].
    rewrite (vram_readdir_walked t path buf r Hpos Hw).
    rewrite (vram_open_walked t path O_RDONLY r Hpos Hw).
    rewrite Hret, Hmode.
    destruct (is_dir r); cbn [fst Z.land Z.eqb O_RDONLY]; split; split;
      try discriminate; try (intros [_ H]; discriminate H); auto.
Qed.
End GetattrFacts.
End OperationFacts.

(** ** The pool under any answers of the device *)

Section PoolAccounting.
Import Device Memory.

Variable block_size : Z.
Hypothesis block_size_range : 0 < block_size <= INT_MAX.

(** An iteration that is refused ends the loop and leaves the pool, the
    counter and the device memory as they were. *)
Lemma increase_pool_iteration_stops n i count st :
  status_at 0 (queue st) <> CL_SUCCESS
  \/ status_at 1 (queue st) <> CL_SUCCESS ->
  exists st',
    increase_pool_loop block_size (S n) i count st
    = (to_size_t (i * block_size), st')
    /\ pool st' = pool st /\ total_blocks st' = total_blocks st
    /\ contents (queue st') = contents (queue st)
    /\ (next_buffer (queue st) <= next_buffer (queue st'))%nat.
Proof.
  intros Hfail. cbn [increase_pool_loop]. unfold createBuffer.
  destruct (call (CreateBuffer block_size) true (fun m => m) 1 (queue st))
    as [r d] eqn:Ecall.
  assert (Hd : d = snd (call (CreateBuffer block_size) true (fun m => m) 1
                             (queue st))) by now rewrite Ecall.
  assert (Hr : r = status_at 0 (queue st))
    by (rewrite <- (call_status (CreateBuffer block_size) (fun m => m) 1);
        now rewrite Ecall).
  assert (Hc : contents d = contents (queue st)).
  { rewrite Hd. unfold call; simpl. now destruct (_ =? _). }
  assert (Hn : (next_buffer (queue st) <= next_buffer d)%nat)
    by (rewrite Hd; apply call_next_buffer_le).
  destruct (r =? CL_SUCCESS) eqn:Er.
  - apply Z.eqb_eq in Er.
    destruct Hfail as [Hfail|Hfail]; [congruence|].
    rewrite clear_buffer_eq.
    unfold enqueueFillBuffer, enqueueCopyBuffer.
    rewrite (in_bounds_whole block_size) by lia. cbn [andb].
    assert (Hs : status_at 0 d = status_at 1 (queue st))
      by (rewrite Hd; apply call_status_at).
    cbn [has_fillbuffer zero_buffer queue set_queue].
    destruct (has_fillbuffer st); cbn [fst snd];
      rewrite call_status, Hs;
      apply Z.eqb_neq in Hfail; rewrite Hfail;
      (eexists; split; [reflexivity|]);
      cbn [pool total_blocks queue set_queue];
      (repeat split;
       [ unfold call; cbn [snd contents]; fold (status_at 0 d);
         rewrite Hs, Hfail; exact Hc
       | etransitivity; [exact Hn | apply call_next_buffer_le] ]).
  - eexists; split; [reflexivity|]. cbn [pool total_blocks queue set_queue].
    auto.
Qed.

(** An iteration that is accepted pushes the new buffer, cleared, and
    goes on. *)
Lemma increase_pool_iteration_pushes n i count st :
  status_at 0 (queue st) = CL_SUCCESS ->
  status_at 1 (queue st) = CL_SUCCESS ->
  exists st1,
    increase_pool_loop block_size (S n) i count st
    = increase_pool_loop block_size n (i + 1) count st1
    /\ has_fillbuffer st1 = has_fillbuffer st
    /\ zero_buffer st1 = zero_buffer st
    /\ pool st1 = pool st ++ [next_buffer (queue st)]
    /\ total_blocks st1 = to_int (total_blocks st + 1)
    /\ next_buffer (queue st1) = S (next_buffer (queue st))
    /\ contents (queue st1)
       = cleared block_size st (next_buffer (queue st)) (contents (queue st)).
Proof.
  intros H0 H1. cbn [increase_pool_loop]. unfold createBuffer.
  destruct (call (CreateBuffer block_size) true (fun m => m) 1 (queue st))
    as [r d] eqn:Ecall.
  assert (Hd : d = snd (call (CreateBuffer block_size) true (fun m => m) 1
                             (queue st))) by now rewrite Ecall.
  assert (Hr : r = status_at 0 (queue st))
    by (rewrite <- (call_status (CreateBuffer block_size) (fun m => m) 1);
        now rewrite Ecall).
  assert (Hc : contents d = contents (queue st)).
  { rewrite Hd. unfold call; simpl. now destruct (_ =? _). }
  assert (Hs : status_at 0 d = CL_SUCCESS)
    by (rewrite Hd, call_status_at; exact H1).
  assert (Hn : next_buffer d = S (next_buffer (queue st)))
    by (rewrite Hd; now apply call_next_buffer_ok).
  rewrite Hr, H0. cbn [Z.eqb CL_SUCCESS].
  rewrite clear_buffer_eq. unfold enqueueFillBuffer, enqueueCopyBuffer.
  rewrite (in_bounds_whole block_size) by lia. cbn [andb].
  cbn [has_fillbuffer zero_buffer queue set_queue]. unfold cleared.
  destruct (has_fillbuffer st) eqn:Efill; cbn [fst snd];
    rewrite call_status, Hs; cbn [Z.eqb CL_SUCCESS];
    (eexists; split; [reflexivity|]);
    cbn [has_fillbuffer zero_buffer pool total_blocks queue
         set_queue set_pool set_total_blocks];
    rewrite call_next_buffer_ok, call_contents_ok, Hc by exact Hs;
    repeat split; auto.
Qed.

Lemma cleared_other st buf m b p :
  b <> buf -> cleared block_size st buf m b p = m b p.
Proof.
  intros Hb. unfold cleared. apply Nat.eqb_neq in Hb.
  destruct (has_fillbuffer st); unfold fill, copy; rewrite Hb; reflexivity.
Qed.

Lemma cleared_zero st buf m p :
  has_fillbuffer st = true
  \/ (forall q, 0 <= q < block_size -> m (zero_buffer st) q = zero) ->
  0 <= p < block_size ->
  cleared block_size st buf m buf p = zero.
Proof.
  intros Hsrc Hp. unfold cleared.
  destruct (has_fillbuffer st); unfold fill, copy, region;
    rewrite Nat.eqb_refl;
    replace (0 <=? p) with true by (symmetry; apply Z.leb_le; lia);
    replace (p <? 0 + block_size) with true
      by (symmetry; apply Z.ltb_lt; lia);
    cbn [andb]; [reflexivity|].
  destruct Hsrc as [Hsrc|Hsrc]; [discriminate|].
  rewrite Z.sub_0_r, Z.add_0_r. now apply Hsrc.
Qed.

(** The loop under any answers of the device: [k] iterations push a
    buffer before the loop ends. *)
Lemma increase_pool_loop_general n :
  forall i count st,
    int_range (total_blocks st) ->
    exists k st',
      (k <= n)%nat
      /\ increase_pool_loop block_size n i count st
         = (if (k <? n)%nat then to_size_t ((i + Z.of_nat k) * block_size)
            else to_size_t (count * block_size), st')
      /\ pool st' = pool st ++ fresh_buffers (next_buffer (queue st)) k
      /\ total_blocks st' = to_int (total_blocks st + Z.of_nat k)
      /\ (next_buffer (queue st) + k <= next_buffer (queue st'))%nat
      /\ (forall b p, (b < next_buffer (queue st))%nat ->
            contents (queue st') b p = contents (queue st) b p)
      /\ (zero_source_kept block_size st ->
          forall b p,
            (next_buffer (queue st) <= b < next_buffer (queue st) + k)%nat ->
            0 <= p < block_size ->
            contents (queue st') b p = zero).
Proof.
  induction n as [|n IH]; intros i count st Hrange.
  - exists O, st. split; [lia|]. split; [reflexivity|].
    unfold fresh_buffers; cbn [seq map Z.of_nat].
    rewrite app_nil_r, Z.add_0_r, to_int_small by exact Hrange.
    repeat split; auto; intros; lia.
  - destruct (Z.eq_dec (status_at 0 (queue st)) CL_SUCCESS) as [H0|H0];
      [destruct (Z.eq_dec (status_at 1 (queue st)) CL_SUCCESS) as [H1|H1]|].
    + destruct (increase_pool_iteration_pushes n i count st H0 H1)
        as (st1 & Estep & Hfill & Hzb & Hpool1 & Htotal1 & Hnext1 & Hmem1).
      destruct (IH (i + 1) count st1) as
        (k & st' & Hk & Eloop & Hpool & Htotal & Hnext & Hold & Hnew);
        [rewrite Htotal1; apply to_int_range|].
      exists (S k), st'.
      split; [lia|]. split; [|split; [|split; [|split; [lia|split]]]].
      * rewrite Estep, Eloop.
        change (S k <? S n)%nat with (k <? n)%nat.
        destruct (k <? n)%nat; [|reflexivity]. do 2 f_equal. lia.
      * rewrite Hpool, Hpool1, Hnext1, fresh_buffers_S, <- app_assoc.
        reflexivity.
      * rewrite Htotal, Htotal1, to_int_add_idem. f_equal. lia.
      * intros b p Hb. rewrite Hold by lia. rewrite Hmem1.
        apply cleared_other. lia.
      * intros Hsrc b p Hb Hp.
        assert (Hsrc1 : zero_source_kept block_size st1).
        { destruct Hsrc as [Hsrc|[Hlt Hsrc]]; [left; congruence|].
          right. rewrite Hzb, Hnext1. split; [lia|].
          intros q Hq. rewrite Hmem1, cleared_other by lia. now apply Hsrc. }
        destruct (Nat.eq_dec b (next_buffer (queue st))) as [->|Hne].
        -- rewrite Hold by lia. rewrite Hmem1. apply cleared_zero; [|exact Hp].
           destruct Hsrc as [Hsrc|[_ Hsrc]]; auto.
        -- apply Hnew; [exact Hsrc1 | lia | exact Hp].
    + destruct (increase_pool_iteration_stops n i count st (or_intror H1))
        as (st' & E & Hp & Ht & Hc & Hn).
      exists O, st'. split; [lia|]. rewrite E. cbn [Nat.ltb Nat.leb Z.of_nat].
      unfold fresh_buffers; cbn [seq map].
      rewrite app_nil_r, !Z.add_0_r, to_int_small by exact Hrange.
      repeat split; auto; [lia | intros; now rewrite Hc | intros; lia].
    + destruct (increase_pool_iteration_stops n i count st (or_introl H0))
        as (st' & E & Hp & Ht & Hc & Hn).
      exists O, st'. split; [lia|]. rewrite E. cbn [Nat.ltb Nat.leb Z.of_nat].
      unfold fresh_buffers; cbn [seq map].
      rewrite app_nil_r, !Z.add_0_r, to_int_small by exact Hrange.
      repeat split; auto; [lia | intros; now rewrite Hc | intros; lia].
Qed.

(** X11. Whatever the device answers, when the count of blocks is not
    negative and the counter does not overflow, [increase_pool] returns
    [block_size] times the number of buffers it added: the pool is
    extended by exactly that many new buffers, [total_blocks] rises by
    that much, and at most the requested count is added. *)
Theorem increase_pool_accounts (size : Z) (st : state) :
  0 <= block_count block_size size ->
  int_range (total_blocks st) ->
  total_blocks st + block_count block_size size <= INT_MAX ->
  exists k : nat,
    Z.of_nat k <= block_count block_size size
    /\ fst (increase_pool block_size size st) = Z.of_nat k * block_size
    /\ pool (snd (increase_pool block_size size st))
       = pool st ++ fresh_buffers (next_buffer (queue st)) k
    /\ pool_size (snd (increase_pool block_size size st))
       = pool_size st + Z.of_nat k.
Proof.
  intros Hcount Hrange Htotal. unfold increase_pool, pool_size.
  pose proof (block_count_range block_size size) as Hc.
  destruct (increase_pool_loop_general
              (Z.to_nat (block_count block_size size)) 0
              (block_count block_size size) st Hrange)
    as (k & st' & Hk & Eloop & Hpool & Htb & _).
  exists k. rewrite Eloop. cbn [fst snd].
  split; [lia|]. split; [|split; [exact Hpool|]].
  - destruct (k <? Z.to_nat (block_count block_size size))%nat eqn:Elt.
    + rewrite Z.add_0_l. apply to_size_t_small.
      unfold int_range, INT_MAX, SIZE_MAX in *. nia.
    + apply Nat.ltb_ge in Elt.
      assert (Z.of_nat k = block_count block_size size) by lia.
      rewrite to_size_t_small
        by (unfold int_range, INT_MAX, SIZE_MAX in *; nia).
      congruence.
  - rewrite Htb. apply to_int_small. unfold int_range in *. lia.
Qed.

(** X12. [increase_pool] does not touch the bytes of any buffer that
    existed before, whatever the device answers; and when the source of
    zeroes is in place, every byte of every buffer it adds to the pool is
    zero when it returns. *)
Theorem increase_pool_memory (size : Z) (st : state) :
  int_range (total_blocks st) ->
  (forall b p, (b < next_buffer (queue st))%nat ->
     contents (queue (snd (increase_pool block_size size st))) b p
     = contents (queue st) b p)
  /\ (zero_source_kept block_size st ->
      forall b p,
        In b (pool (snd (increase_pool block_size size st))) ->
        ~ In b (pool st) ->
        0 <= p < block_size ->
        contents (queue (snd (increase_pool block_size size st))) b p
        = zero).
Proof.
  intros Hrange. unfold increase_pool.
  destruct (increase_pool_loop_general
              (Z.to_nat (block_count block_size size)) 0
              (block_count block_size size) st Hrange)
    as (k & st' & Hk & Eloop & Hpool & _ & _ & Hold & Hnew).
  rewrite Eloop. cbn [snd]. split; [exact Hold|].
  intros Hsrc b p Hin Hnot Hp. rewrite Hpool in Hin.
  apply in_app_or in Hin as [Hin|Hin]; [contradiction|].
  apply fresh_buffers_bounds in Hin. apply Hnew; [exact Hsrc | lia | exact Hp].
Qed.
End PoolAccounting.

(** ** Allocating and releasing *)

Section ClientFacts.
Import Device Memory Client.

Lemma removelast_last_app {A} (l : list A) (x d : A) :
  removelast (l ++ [x]) = l /\ last (l ++ [x]) d = x.
Proof. split; [apply removelast_last | apply last_last]. Qed.

(** X13. Releasing a block right after allocating it restores the
    globals exactly; and allocating right after a release hands out a
    block on the buffer just released (the pool is a stack), whatever the
    pool held, and restores the globals too. *)
Theorem allocate_release_round_trip (st : state) (b : block) :
  (forall b' st', allocate st = (Some b', st') -> block_delete b' st' = st)
  /\ exists b', allocate (block_delete b st) = (Some b', st)
                /\ buffer b' = buffer b.
Proof.
  split.
  - intros b' st' Halloc. unfold allocate, block_new in Halloc.
    destruct (negb (Z.of_nat (List.length (pool st)) =? 0)) eqn:Ene;
      [|discriminate].
    injection Halloc as <- <-. unfold block_delete.
    cbn [pool set_pool buffer].
    assert (Hne : pool st <> []).
    { intros Hnil. rewrite Hnil in Ene. discriminate. }
    rewrite <- (pool_back (pool st) Hne). destruct st; reflexivity.
  - unfold allocate, block_new, block_delete. cbn [pool set_pool buffer].
    destruct (removelast_last_app (pool st) (buffer b) O) as [Hrl Hl].
    rewrite Hrl, Hl, length_app.
    replace (Z.of_nat (List.length (pool st) + List.length [buffer b]) =? 0)
      with false
      by (symmetry; apply Z.eqb_neq; cbn [List.length]; lia).
    cbn [negb].
    exists {| buffer := buffer b; dirty := dirty_default;
              last_write := last_write_default |}.
    split; [destruct st; reflexivity | reflexivity].
Qed.

Lemma call_next_buffer_same c v e d :
  next_buffer (snd (call c v e 0 d)) = next_buffer d.
Proof. unfold call; simpl. now destruct (_ =? _). Qed.

Lemma setCallback_next_buffer e data d :
  next_buffer (setCallback e data d) = next_buffer d.
Proof. destruct e; reflexivity. Qed.

Section WithBlockSize.
Variable block_size : Z.
Hypothesis block_size_range : 0 < block_size <= INT_MAX.

Lemma clear_buffer_frame buf st :
  pool (snd (clear_buffer block_size buf st)) = pool st
  /\ total_blocks (snd (clear_buffer block_size buf st)) = total_blocks st
  /\ next_buffer (queue (snd (clear_buffer block_size buf st)))
     = next_buffer (queue st).
Proof.
  rewrite clear_buffer_eq. cbn [snd pool total_blocks queue set_queue].
  unfold enqueueFillBuffer, enqueueCopyBuffer.
  destruct (has_fillbuffer st); rewrite call_next_buffer_same; auto.
Qed.

(** [write] changes neither the pool nor the counter nor the set of
    buffers of the device, and the block keeps its buffer. *)
Lemma write_frame b offset size data async st :
  buffer (fst (write block_size b offset size data async st)) = buffer b
  /\ pool (snd (write block_size b offset size data async st)) = pool st
  /\ total_blocks (snd (write block_size b offset size data async st))
     = total_blocks st
  /\ next_buffer (queue (snd (write block_size b offset size data async st)))
     = next_buffer (queue st).
Proof.
  pose proof (write_eq block_size b offset size data async st) as E.
  cbv zeta in E. rewrite E. cbn [fst snd buffer pool total_blocks queue
                                 set_queue].
  destruct (clear_buffer_frame (buffer b) st) as (Hp & Ht & Hn).
  split; [reflexivity|].
  destruct (dirty b && negb (size =? block_size));
    (destruct async;
     [rewrite setCallback_next_buffer|]; rewrite call_next_buffer_same);
    auto.
Qed.

Lemma read_frame b offset size area st :
  pool (snd (read block_size b offset size area st)) = pool st
  /\ total_blocks (snd (read block_size b offset size area st))
     = total_blocks st
  /\ next_buffer (queue (snd (read block_size b offset size area st)))
     = next_buffer (queue st).
Proof.
  unfold read, enqueueReadBuffer. destruct (dirty b); [auto|].
  pose proof (call_next_buffer_same
                (ReadBuffer (buffer b) true (to_size_t offset) size)
                (in_bounds block_size (to_size_t offset) size)
                (fun m => m) (queue st)) as Hn.
  destruct (call _ _ _ _ _) as [r d].
  cbn [snd pool total_blocks queue set_queue] in *. auto.
Qed.

Lemma nth_error_cut {A} (l : list A) k x :
  nth_error l k = Some x -> l = firstn k l ++ x :: skipn (S k) l.
Proof.
  revert k. induction l as [|a l IH]; intros [|k] H; try discriminate.
  - injection H as ->. reflexivity.
  - cbn [firstn skipn app]. f_equal. now apply IH.
Qed.

Lemma held_replace s k b b' :
  nth_error (live s) k = Some b -> buffer b' = buffer b ->
  map buffer (replace_nth k b' (live s)) = held s.
Proof.
  intros Hk Hb. unfold held, replace_nth.
  rewrite (nth_error_cut _ _ _ Hk) at 3.
  rewrite !map_app. cbn [map]. now rewrite Hb.
Qed.

(** One call keeps every buffer with one owner. *)
Lemma step_owned o s : owned s -> owned (step block_size o s).
Proof.
  intros (Hpool & Hheld & Hdisj & Hlt).
  destruct o as [size| |k|k offset size data async|k offset size area];
    cbn [step].
  - (* increase_pool *)
    unfold increase_pool.
    destruct (increase_pool_loop_appends block_size block_size_range
                (Z.to_nat (block_count block_size size)) 0
                (block_count block_size size) (globals s))
      as (n & st' & E & _ & Hp & Hn).
    rewrite E. unfold owned, held. cbn [globals live snd]. rewrite Hp.
    split; [|split; [exact Hheld|split]].
    + apply NoDup_app; [exact Hpool | apply fresh_buffers_NoDup|].
      intros b Hb Hf. apply fresh_buffers_bounds in Hf.
      specialize (Hlt b (or_introl Hb)). lia.
    + intros b Hb Hh. apply in_app_or in Hb as [Hb|Hb].
      * now apply (Hdisj b).
      * apply fresh_buffers_bounds in Hb.
        specialize (Hlt b (or_intror Hh)). lia.
    + intros b [Hb|Hb].
      * apply in_app_or in Hb as [Hb|Hb].
        -- specialize (Hlt b (or_introl Hb)). lia.
        -- apply fresh_buffers_bounds in Hb. lia.
      * specialize (Hlt b (or_intror Hb)). lia.
  - (* allocate *)
    unfold allocate, block_new.
    destruct (negb (Z.of_nat (List.length (pool (globals s))) =? 0)) eqn:Ene;
      [|repeat split; assumption].
    assert (Hne : pool (globals s) <> []).
    { intros Hnil. rewrite Hnil in Ene. discriminate. }
    pose proof (pool_back _ Hne) as Hback.
    set (x := last (pool (globals s)) O) in *.
    set (p := removelast (pool (globals s))) in *.
    unfold owned, held in *. cbn [globals live pool set_pool queue].
    rewrite map_app. cbn [map buffer].
    rewrite Hback in Hpool, Hdisj, Hlt.
    assert (Hx : ~ In x p).
    { apply NoDup_remove_2 in Hpool. now rewrite app_nil_r in Hpool. }
    split; [|split; [|split]].
    + apply NoDup_remove_1 in Hpool. now rewrite app_nil_r in Hpool.
    + apply NoDup_app; [exact Hheld | repeat constructor; intros []|].
      intros b Hb [Heq|[]]. subst b. apply (Hdisj x); [|exact Hb].
      apply in_or_app; right; now left.
    + intros b Hb Hin. apply in_app_or in Hin as [Hin|[Heq|[]]].
      * apply (Hdisj b); [apply in_or_app; now left | exact Hin].
      * subst b. contradiction.
    + intros b [Hb|Hb].
      * apply Hlt. left. apply in_or_app. now left.
      * apply in_app_or in Hb as [Hb|[Heq|[]]].
        -- apply Hlt. now right.
        -- subst b. apply Hlt. left. apply in_or_app. right. now left.
  - (* release *)
    destruct (nth_error (live s) k) as [b|] eqn:Ek;
      [|repeat split; assumption].
    pose proof (nth_error_cut _ _ _ Ek) as Hcut.
    unfold owned, held, block_delete, remove_nth in *.
    cbn [globals live pool set_pool queue].
    rewrite Hcut in Hheld, Hdisj, Hlt.
    rewrite map_app in *. cbn [map] in *.
    set (l1 := map buffer (firstn k (live s))) in *.
    set (l2 := map buffer (skipn (S k) (live s))) in *.
    pose proof (NoDup_remove_1 _ _ _ Hheld) as Hrest.
    pose proof (NoDup_remove_2 _ _ _ Hheld) as Hb.
    split; [|split; [exact Hrest|split]].
    + apply NoDup_app; [exact Hpool | repeat constructor; intros []|].
      intros x Hx [Heq|[]]. subst x. apply (Hdisj _ Hx).
      apply in_or_app; right; now left.
    + intros x Hx Hin. apply in_app_or in Hx as [Hx|[Heq|[]]].
      * apply (Hdisj x Hx). apply in_app_or in Hin as [Hin|Hin];
          apply in_or_app; [now left | right; now right].
      * subst x. contradiction.
    + intros x [Hx|Hx].
      * apply in_app_or in Hx as [Hx|[Heq|[]]].
        -- apply Hlt. now left.
        -- subst x. apply Hlt. right. apply in_or_app; right; now left.
      * apply Hlt. right. apply in_app_or in Hx as [Hx|Hx];
          apply in_or_app; [now left | right; now right].
  - (* write *)
    destruct (nth_error (live s) k) as [b|] eqn:Ek;
      [|repeat split; assumption].
    destruct (write_frame b offset size data async (globals s))
      as (Hbuf & Hp & _ & Hn).
    destruct (write block_size b offset size data async (globals s))
      as [b' g]. cbn [fst snd] in *.
    unfold owned. cbn [globals]. unfold held at 1 2 3. cbn [live].
    rewrite (held_replace s k b b' Ek Hbuf), Hp, Hn.
    repeat split; assumption.
  - (* read *)
    destruct (nth_error (live s) k) as [b|] eqn:Ek;
      [|repeat split; assumption].
    destruct (read_frame b offset size area (globals s)) as (Hp & _ & Hn).
    unfold owned, held. cbn [globals live]. rewrite Hp, Hn.
    repeat split; assumption.
Qed.

(** X14. Exclusive ownership: starting with every buffer under one
    owner (in particular with an empty pool and no block), any sequence
    of calls to [increase_pool], [allocate], the destructor, [write] and
    [read] leaves the free buffers distinct, the buffers of the live
    blocks distinct, and no buffer both free and in a live block. *)
Theorem run_keeps_ownership (ops : list op) (s : system) :
  owned s ->
  let s' := run block_size ops s in
  NoDup (pool (globals s')) /\ NoDup (held s')
  /\ forall b, In b (pool (globals s')) -> ~ In b (held s').
Proof.
  intros Hown s'. subst s'.
  assert (H : owned (run block_size ops s)).
  { revert s Hown. induction ops as [|o ops IH]; intros s Hown;
      [exact Hown|].
    cbn [run fold_left]. apply IH. now apply step_owned. }
  destruct H as (H1 & H2 & H3 & _). auto.
Qed.

Lemma length_remove_nth {A} (l : list A) k x :
  nth_error l k = Some x ->
  S (List.length (remove_nth k l)) = List.length l.
Proof.
  intros Hk. unfold remove_nth. rewrite (nth_error_cut _ _ _ Hk) at 3.
  rewrite !length_app. cbn [List.length]. lia.
Qed.

Lemma length_replace_nth {A} (l : list A) k x y :
  nth_error l k = Some x ->
  List.length (replace_nth k y l) = List.length l.
Proof.
  intros Hk. unfold replace_nth. rewrite (nth_error_cut _ _ _ Hk) at 3.
  rewrite !length_app. reflexivity.
Qed.

(** One call never takes a buffer away from the device. *)
Lemma step_next_buffer o s :
  (next_buffer (queue (globals s))
   <= next_buffer (queue (globals (step block_size o s))))%nat.
Proof.
  destruct o as [size| |k|k offset size data async|k offset size area];
    cbn [step].
  - unfold increase_pool.
    destruct (increase_pool_loop_appends block_size block_size_range
                (Z.to_nat (block_count block_size size)) 0
                (block_count block_size size) (globals s))
      as (n & st' & E & _ & _ & Hn).
    rewrite E. cbn [globals snd]. lia.
  - unfold allocate, block_new.
    destruct (negb _); cbn [globals queue set_pool]; lia.
  - destruct (nth_error (live s) k); cbn [globals]; [|lia].
    unfold block_delete. cbn [queue set_pool]. lia.
  - destruct (nth_error (live s) k) as [b|]; [|lia].
    destruct (write_frame b offset size data async (globals s))
      as (_ & _ & _ & Hn).
    destruct (write block_size b offset size data async (globals s)).
    cbn [globals snd] in *. lia.
  - destruct (nth_error (live s) k) as [b|]; [|lia].
    destruct (read_frame b offset size area (globals s)) as (_ & _ & Hn).
    cbn [globals]. lia.
Qed.

Lemma run_next_buffer ops :
  forall s,
    (next_buffer (queue (globals s))
     <= next_buffer (queue (globals (run block_size ops s))))%nat.
Proof.
  induction ops as [|o ops IH]; intros s; [cbn; lia|].
  cbn [run fold_left]. etransitivity; [apply step_next_buffer | apply IH].
Qed.

(** One call keeps the counter equal to the number of buffers, as long as
    the device has not created more buffers than an [int] counts. *)
Lemma step_counted o s :
  counted s ->
  Z.of_nat (next_buffer (queue (globals (step block_size o s)))) <= INT_MAX ->
  counted (step block_size o s).
Proof.
  intros [Hcount Hle] Hmax. pose proof (step_next_buffer o s) as Hmono.
  revert Hmax Hmono. unfold counted in *.
  destruct o as [size| |k|k offset size data async|k offset size area];
    cbn [step].
  - intros Hmax Hmono. cbn [globals] in Hmax, Hmono.
    assert (Hr : int_range (total_blocks (globals s)))
      by (unfold int_range, INT_MAX in *; lia).
    revert Hmax. clear Hmono. unfold increase_pool.
    destruct (increase_pool_loop_general block_size block_size_range
                (Z.to_nat (block_count block_size size)) 0
                (block_count block_size size) (globals s) Hr)
      as (n & st' & _ & E & Hp & Ht & Hn & _).
    rewrite E. cbn [globals live snd]. intros Hmax.
    rewrite Ht, Hp, length_app. unfold fresh_buffers.
    rewrite length_map, length_seq.
    rewrite to_int_small by (unfold INT_MAX in *; lia). lia.
  - unfold allocate, block_new.
    destruct (negb (Z.of_nat (List.length (pool (globals s))) =? 0)) eqn:Ene;
      cbn [globals live pool set_pool total_blocks queue]; [|auto].
    assert (Hne : pool (globals s) <> []).
    { intros Hnil. rewrite Hnil in Ene. discriminate. }
    pose proof (pool_back _ Hne) as Hback.
    assert (Hl : List.length (pool (globals s))
                 = S (List.length (removelast (pool (globals s))))).
    { rewrite Hback at 1. rewrite length_app. cbn [List.length]. lia. }
    rewrite length_app. cbn [List.length]. intros _ _. lia.
  - destruct (nth_error (live s) k) as [b|] eqn:Ek; [|auto].
    unfold block_delete.
    cbn [globals live pool set_pool total_blocks queue].
    pose proof (length_remove_nth _ _ _ Ek) as Hl.
    rewrite length_app. cbn [List.length]. intros _ _. lia.
  - destruct (nth_error (live s) k) as [b|] eqn:Ek; [|auto].
    destruct (write_frame b offset size data async (globals s))
      as (_ & Hp & Ht & Hn).
    destruct (write block_size b offset size data async (globals s))
      as [b' g]. cbn [globals live fst snd] in *.
    rewrite Hp, Ht, Hn, (length_replace_nth _ _ _ b' Ek). auto.
  - destruct (nth_error (live s) k) as [b|] eqn:Ek; [|auto].
    destruct (read_frame b offset size area (globals s)) as (Hp & Ht & Hn).
    cbn [globals live]. rewrite Hp, Ht, Hn. auto.
Qed.

(** X15. Counting: starting with the counter equal to the number of
    buffers (in particular with none), after any sequence of calls that
    leaves the device with at most [INT_MAX] buffers, [pool_size] is
    [pool_available] plus the number of live blocks: no buffer is lost and
    none is counted twice. *)
Theorem run_keeps_count (ops : list op) (s : system) :
  counted s ->
  let s' := run block_size ops s in
  Z.of_nat (next_buffer (queue (globals s'))) <= INT_MAX ->
  pool_size (globals s')
  = pool_available (globals s') + Z.of_nat (List.length (live s')).
Proof.
  intros Hc s' Hmax. subst s'.
  assert (H : counted (run block_size ops s)).
  { revert s Hc Hmax. induction ops as [|o ops IH]; intros s Hc Hmax;
      [exact Hc|].
    cbn [run fold_left] in *. apply IH; [|exact Hmax].
    apply step_counted; [exact Hc|].
    pose proof (run_next_buffer ops (step block_size o s)).
    unfold run in *. lia. }
  destruct H as [Hcount Hle]. unfold pool_size, pool_available.
  rewrite to_int_small by (unfold INT_MAX in *; lia). lia.
Qed.
End WithBlockSize.
End ClientFacts.

(** ** What a block reads back *)

Section BlockIO.
Import Device Memory.

Variable block_size : Z.
Hypothesis block_size_range : 0 < block_size <= INT_MAX.

Lemma call_contents c v e f d :
  contents (snd (call c v e f d))
  = if fst (call c v e f d) =? CL_SUCCESS then e (contents d)
    else contents d.
Proof. reflexivity. Qed.

Lemma call_refused c e f d :
  fst (call c false e f d) = CL_INVALID_VALUE.
Proof. reflexivity. Qed.

Lemma map_nth_seq (l : list byte) n :
  n = List.length l ->
  map (fun k => nth k l zero) (seq 0 n) = l.
Proof.
  intros ->. induction l as [|x l IH]; [reflexivity|].
  cbn [List.length seq map nth]. f_equal.
  rewrite <- seq_shift, map_map. exact IH.
Qed.

Lemma load_store buf offset size data m :
  0 <= size -> Z.to_nat size = List.length data ->
  load buf offset size (store buf offset size data m) = data.
Proof.
  intros Hsize Hlen. unfold load.
  transitivity (map (fun k => nth k data zero) (seq 0 (Z.to_nat size)));
    [|apply map_nth_seq; exact Hlen].
  apply map_ext_in. intros k Hk. apply in_seq in Hk.
  unfold store, region. rewrite Nat.eqb_refl.
  replace (offset <=? offset + Z.of_nat k) with true
    by (symmetry; apply Z.leb_le; lia).
  replace (offset + Z.of_nat k <? offset + size) with true
    by (symmetry; apply Z.ltb_lt; lia).
  cbn [andb]. f_equal. lia.
Qed.

(** [read] on a block that is not dirty, as one call. *)
Lemma read_clean_eq buf e offset size area st :
  read block_size {| buffer := buf; dirty := false; last_write := e |}
       offset size area st
  = (if fst (call (ReadBuffer buf true (to_size_t offset) size)
                  (in_bounds block_size (to_size_t offset) size)
                  (fun m => m) 0 (queue st)) =? CL_SUCCESS
     then overwrite area
            (load buf (to_size_t offset) size (contents (queue st)))
     else area,
     set_queue (snd (call (ReadBuffer buf true (to_size_t offset) size)
                          (in_bounds block_size (to_size_t offset) size)
                          (fun m => m) 0 (queue st))) st).
Proof. reflexivity. Qed.

Lemma length_load buf offset size m :
  List.length (load buf offset size m) = Z.to_nat size.
Proof. unfold load. now rewrite length_map, length_seq. Qed.

(** X16. Reading a block that is not dirty.  A read inside the block that
    the device accepts puts the bytes the buffer holds at that range at
    the start of the host area.  A read at a negative offset, or that
    runs past the end of the block, or that the device refuses, leaves
    the host area as it was.  In no case does the read change a byte of
    device memory. *)
Theorem read_clean_block (buf : cl_Buffer) (e : cl_Event)
        (offset size : Z) (area : list byte) (st : state) :
  let b := {| buffer := buf; dirty := false; last_write := e |} in
  (0 <= offset -> 0 <= size -> offset + size <= block_size ->
   status_at 0 (queue st) = CL_SUCCESS ->
   firstn (Z.to_nat size) (fst (read block_size b offset size area st))
   = load buf offset size (contents (queue st)))
  /\ (offset < 0 \/ size < 0 \/ block_size < offset + size
      \/ status_at 0 (queue st) <> CL_SUCCESS ->
      - 2 ^ 63 <= offset < 2 ^ 63 ->
      fst (read block_size b offset size area st) = area)
  /\ contents (queue (snd (read block_size b offset size area st)))
     = contents (queue st).
Proof.
  intros b. subst b. rewrite read_clean_eq. cbn [fst snd queue set_queue].
  split; [|split].
  - intros Ho Hs Hos H0.
    rewrite to_size_t_small by (unfold SIZE_MAX, INT_MAX in *; lia).
    rewrite (in_bounds_true block_size offset size) by assumption.
    rewrite call_status, H0. cbn [Z.eqb CL_SUCCESS].
    rewrite <- (length_load buf offset size (contents (queue st))) at 1.
    apply overwrite_firstn.
  - intros Hbad Hoff.
    destruct (in_bounds block_size (to_size_t offset) size) eqn:Eb.
    + unfold in_bounds in Eb. rewrite !andb_true_iff, !Z.leb_le in Eb.
      destruct Eb as [[_ Hs] Hos].
      assert (Ho : 0 <= offset).
      { destruct (Z_lt_le_dec offset 0) as [Hneg|]; [|assumption].
        exfalso. unfold to_size_t in Hos.
        replace offset with (offset + 2 ^ 64 + (-1) * 2 ^ 64) in Hos by lia.
        rewrite Z.mod_add in Hos by lia.
        rewrite Z.mod_small in Hos by lia.
        unfold INT_MAX in *. lia. }
      rewrite to_size_t_small in Hos by (unfold SIZE_MAX; lia).
      destruct Hbad as [H|[H|[H|H]]]; try lia.
      rewrite call_status. apply Z.eqb_neq in H. now rewrite H.
    + rewrite call_refused. reflexivity.
  - rewrite call_contents. now destruct (_ =? _).
Qed.

Lemma clear_buffer_contents_other buf st b p :
  b <> buf ->
  contents (queue (snd (clear_buffer block_size buf st))) b p
  = contents (queue st) b p.
Proof.
  intros Hb. rewrite clear_buffer_eq. cbn [snd queue set_queue].
  unfold enqueueFillBuffer, enqueueCopyBuffer.
  apply Nat.eqb_neq in Hb.
  destruct (has_fillbuffer st); rewrite call_contents;
    destruct (_ =? _); try reflexivity; unfold fill, copy;
    rewrite Hb; reflexivity.
Qed.

Lemma clear_buffer_callbacks buf st :
  callbacks (queue (snd (clear_buffer block_size buf st)))
  = callbacks (queue st).
Proof.
  rewrite clear_buffer_eq. cbn [snd queue set_queue].
  unfold enqueueFillBuffer, enqueueCopyBuffer.
  destruct (has_fillbuffer st); apply call_callbacks.
Qed.

Lemma store_outside buf offset size data m b p :
  b <> buf \/ region offset size p = false ->
  store buf offset size data m b p = m b p.
Proof.
  intros H. unfold store. destruct H as [H|H].
  - apply Nat.eqb_neq in H. now rewrite H.
  - rewrite H, andb_false_r. reflexivity.
Qed.

(** X17. Round trip: when the range lies inside the block, the host data
    holds at least [size] bytes and the device accepts the calls, reading
    the range just written returns the bytes written, in either mode and
    whether the block was dirty or not. *)
Theorem write_then_read (b : block) (offset size : Z) (data area : list byte)
        (async : bool) (st : state) :
  0 <= offset -> 0 <= size -> offset + size <= block_size ->
  (Z.to_nat size <= List.length data)%nat ->
  (forall k, (k < 3)%nat -> status_at k (queue st) = CL_SUCCESS) ->
  let b' := fst (write block_size b offset size data async st) in
  let st' := snd (write block_size b offset size data async st) in
  firstn (Z.to_nat size) (fst (read block_size b' offset size area st'))
  = firstn (Z.to_nat size) data.
Proof.
  intros Ho Hs Hos Hlen Hok b' st'.
  pose proof (write_eq block_size b offset size data async st) as E.
  cbv zeta in E.
  assert (Eoff : to_size_t offset = offset)
    by (apply to_size_t_small; unfold SIZE_MAX, INT_MAX in *; lia).
  rewrite Eoff, (in_bounds_true block_size offset size) in E by assumption.
  set (st1 := if dirty b && negb (size =? block_size)
              then snd (clear_buffer block_size (buffer b) st) else st) in *.
  assert (Hst1 : forall k, (k < 2)%nat ->
                           status_at k (queue st1) = CL_SUCCESS).
  { intros k Hk. subst st1.
    destruct (dirty b && negb (size =? block_size)).
    - rewrite clear_buffer_status_at by lia. apply Hok. lia.
    - apply Hok. lia. }
  set (payload := firstn (Z.to_nat size) data) in *.
  assert (Hpl : Z.to_nat size = List.length payload)
    by (subst payload; rewrite length_firstn; lia).
  assert (Hb' : b' = {| buffer := buffer b; dirty := false;
                        last_write := last_write b' |})
    by (subst b'; rewrite E; reflexivity).
  assert (Hmem : contents (queue st')
                 = store (buffer b) offset size payload
                         (contents (queue st1))).
  { subst st'. rewrite E. cbn [snd queue set_queue].
    destruct async; [rewrite setCallback_contents|];
      rewrite call_contents_ok; auto; apply Hst1; lia. }
  assert (Hst' : status_at 0 (queue st') = CL_SUCCESS).
  { subst st'. rewrite E. cbn [snd queue set_queue].
    destruct async; [rewrite setCallback_status_at|];
      rewrite call_status_at; apply Hst1; lia. }
  rewrite Hb', read_clean_eq. cbn [fst].
  rewrite Eoff, (in_bounds_true block_size offset size) by assumption.
  rewrite call_status, Hst'. cbn [Z.eqb CL_SUCCESS].
  rewrite Hmem, load_store by assumption.
  rewrite Hpl. apply overwrite_firstn.
Qed.

(** X18. Isolation: whatever the state of the block, the mode and the
    answers of the device, [write] never changes a byte of another
    buffer; and when it does not clear (the block is not dirty, or the
    size is [block_size]) it never changes a byte of its own buffer
    outside the range written. *)
Theorem write_touches_only_its_range (b : block) (offset size : Z)
        (data : list byte) (async : bool) (st : state) :
  let st' := snd (write block_size b offset size data async st) in
  (forall buf p, buf <> buffer b ->
     contents (queue st') buf p = contents (queue st) buf p)
  /\ (dirty b && negb (size =? block_size) = false ->
      forall p, region (to_size_t offset) size p = false ->
        contents (queue st') (buffer b) p = contents (queue st) (buffer b) p).
Proof.
  intros st'. subst st'.
  pose proof (write_eq block_size b offset size data async st) as E.
  cbv zeta in E. rewrite E. cbn [snd queue set_queue]. clear E.
  set (st1 := if dirty b && negb (size =? block_size)
              then snd (clear_buffer block_size (buffer b) st) else st).
  set (w := call _ _ _ _ (queue st1)).
  assert (Hw : forall buf p,
             buf <> buffer b \/ region (to_size_t offset) size p = false ->
             contents (if async
                       then setCallback (event_of (fst w) (queue st1))
                                        (firstn (Z.to_nat size) data) (snd w)
                       else snd w) buf p
             = contents (queue st1) buf p).
  { intros buf p Hout.
    assert (Hs : contents (snd w) buf p = contents (queue st1) buf p).
    { subst w. rewrite call_contents.
      destruct (_ =? CL_SUCCESS); [|reflexivity].
      now apply store_outside. }
    destruct async; [rewrite setCallback_contents|]; exact Hs. }
  split.
  - intros buf p Hbuf. rewrite Hw by auto. subst st1.
    destruct (dirty b && negb (size =? block_size)); [|reflexivity].
    now apply clear_buffer_contents_other.
  - intros Hplain p Hp. rewrite Hw by auto. subst st1.
    now rewrite Hplain.
Qed.

(** X19. A write the device refuses is not noticed: the status of the
    call is dropped, so the block is marked clean all the same, with a
    null [last_write]; no completion callback is registered, also in
    asynchronous mode; and when the write did not clear, device memory is
    as before, so that the block now reads whatever its buffer held.  A
    write of [block_size] bytes at an offset other than 0 is such a
    write. *)
Theorem write_refused (b : block) (offset size : Z) (data : list byte)
        (async : bool) (st : state) :
  dirty b && negb (size =? block_size) = false ->
  in_bounds block_size (to_size_t offset) size = false
  \/ status_at 0 (queue st) <> CL_SUCCESS ->
  let b' := fst (write block_size b offset size data async st) in
  let st' := snd (write block_size b offset size data async st) in
  dirty b' = false /\ last_write b' = None
  /\ callbacks (queue st') = callbacks (queue st)
  /\ contents (queue st') = contents (queue st)
  /\ (size = block_size -> 0 < offset < 2 ^ 63 ->
      in_bounds block_size (to_size_t offset) size = false).
Proof.
  intros Hplain Hbad b' st'. subst b' st'.
  pose proof (write_eq block_size b offset size data async st) as E.
  cbv zeta in E. rewrite E, Hplain.
  cbn [fst snd dirty last_write queue set_queue]. clear E.
  set (w := call _ _ _ _ _).
  assert (Hr : (fst w =? CL_SUCCESS) = false).
  { subst w. destruct Hbad as [Hb|Hb].
    - rewrite Hb. reflexivity.
    - destruct (in_bounds block_size (to_size_t offset) size);
        [|reflexivity].
      rewrite call_status. now apply Z.eqb_neq. }
  assert (He : event_of (fst w) (queue st) = None)
    by (unfold event_of; now rewrite Hr).
  rewrite He. split; [reflexivity|]. split; [reflexivity|].
  split; [|split].
  - destruct async; cbn [setCallback]; subst w; apply call_callbacks.
  - destruct async; cbn [setCallback contents]; subst w;
      rewrite call_contents; now rewrite Hr.
  - intros -> Hoff. unfold in_bounds.
    rewrite to_size_t_small by (unfold SIZE_MAX; lia).
    apply andb_false_iff. right. apply Z.leb_gt. lia.
Qed.

(** X20. The private copy of an asynchronous write.  An asynchronous
    write that the device accepts registers exactly one completion
    callback, on the event recorded as [last_write], holding a copy of the
    first [size] bytes of the data.  A synchronous write registers none,
    and neither does an asynchronous write that is refused. *)
Theorem write_callbacks (b : block) (offset size : Z) (data : list byte)
        (async : bool) (st : state) :
  let b' := fst (write block_size b offset size data async st) in
  let st' := snd (write block_size b offset size data async st) in
  callbacks (queue st')
  = callbacks (queue st)
    ++ match last_write b' with
       | Some n => if async then [(n, firstn (Z.to_nat size) data)] else []
       | None => []
       end.
Proof.
  intros b' st'. subst b' st'.
  pose proof (write_eq block_size b offset size data async st) as E.
  cbv zeta in E. rewrite E.
  cbn [fst snd last_write queue set_queue]. clear E.
  set (st1 := if dirty b && negb (size =? block_size)
              then snd (clear_buffer block_size (buffer b) st) else st).
  assert (Hcb : callbacks (queue st1) = callbacks (queue st)).
  { subst st1. destruct (dirty b && negb (size =? block_size));
      [apply clear_buffer_callbacks | reflexivity]. }
  destruct (event_of _ (queue st1)) as [n|]; destruct async;
    cbn [setCallback callbacks]; rewrite ?call_callbacks, Hcb;
    rewrite ?app_nil_r; reflexivity.
Qed.
End BlockIO.

(** ** The connection to the device *)

Section BackendFacts.
Import Device Memory Backend.

Variable block_size : Z.
Variable cl_version_1_2 : bool.
Hypothesis block_size_range : 0 < block_size <= INT_MAX.

Lemma init_platforms_skip pre :
  forall p rest st,
    Forall (fun q => gpu_devices q = []) pre ->
    init_platforms block_size cl_version_1_2 (pre ++ p :: rest) st
    = init_platforms block_size cl_version_1_2 (p :: rest) st.
Proof.
  induction pre as [|q pre IH]; intros p rest st Hpre; [reflexivity|].
  inversion Hpre as [|? ? Hq Hpre']; subst.
  cbn [app init_platforms]. rewrite Hq. now apply IH.
Qed.

Lemma init_platforms_first p rest st :
  gpu_devices p <> [] ->
  init_platforms block_size cl_version_1_2 (p :: rest) st
  = init_platforms block_size cl_version_1_2 [p] st.
Proof.
  intros Hgpu. cbn [init_platforms].
  destruct (gpu_devices p) as [|d ds]; [congruence|]. reflexivity.
Qed.

Lemma init_platforms_no_gpu ps :
  forall st,
    Forall (fun q => gpu_devices q = []) ps ->
    init_platforms block_size cl_version_1_2 ps st = (false, st).
Proof.
  induction ps as [|q ps IH]; intros st Hps; [reflexivity|].
  inversion Hps as [|? ? Hq Hps']; subst.
  cbn [init_platforms]. rewrite Hq. now apply IH.
Qed.

(** X21. Which platform decides.  Once [ready] is set, [is_available]
    answers true without looking at the platforms or changing anything.
    Otherwise the platforms without a GPU are passed over, the first
    platform with a GPU alone decides the answer, also when it fails and
    a later platform would do; and without any GPU the answer is false
    and the globals are as before, [ready] still unset, so that the next
    call probes again. *)
Theorem is_available_first_gpu (pre rest : list platform) (p : platform)
        (g : backend) :
  (ready g = true ->
   is_available block_size cl_version_1_2 (pre ++ p :: rest) g = (true, g))
  /\ (ready g = false ->
      Forall (fun q => gpu_devices q = []) pre ->
      (gpu_devices p <> [] ->
       is_available block_size cl_version_1_2 (pre ++ p :: rest) g
       = is_available block_size cl_version_1_2 [p] g)
      /\ (gpu_devices p = [] ->
          Forall (fun q => gpu_devices q = []) rest ->
          is_available block_size cl_version_1_2 (pre ++ p :: rest) g
          = (false, g))).
Proof.
  unfold is_available, init_opencl. split.
  - intros Hr. rewrite Hr. destruct g; cbn in *. now subst.
  - intros Hr Hpre. rewrite Hr.
    replace (Z.of_nat (List.length (pre ++ p :: rest)) =? 0) with false
      by (symmetry; apply Z.eqb_neq; rewrite length_app;
          cbn [List.length]; lia).
    cbn [List.length Z.of_nat Z.eqb Pos.of_succ_nat]. split.
    + intros Hgpu.
      rewrite init_platforms_skip, init_platforms_first by assumption.
      reflexivity.
    + intros Hgpu Hrest.
      rewrite init_platforms_no_gpu.
      * destruct g; cbn in *. now subst.
      * apply Forall_app. split; [exact Hpre|]. now constructor.
Qed.

Lemma nth_repeat_zero k n : nth k (repeat zero n) zero = zero.
Proof.
  revert k. induction n as [|n IH]; intros [|k]; cbn; auto.
Qed.

(** A successful probe leaves a source of zeroes in place. *)
Lemma init_platforms_zero_source ps :
  forall st st',
    init_platforms block_size cl_version_1_2 ps st = (true, st') ->
    zero_source_kept block_size st'.
Proof.
  induction ps as [|p ps IH]; intros st st' Hinit; [discriminate|].
  cbn [init_platforms] in Hinit.
  destruct (gpu_devices p) as [|d ds]; [eauto|].
  set (st2 := if cl_version_1_2 && (65538 <=? version p)
              then set_has_fillbuffer true (set_queue d st)
              else set_queue d st) in *.
  destruct (has_fillbuffer st2) eqn:Efill; cbn [negb] in Hinit.
  - injection Hinit as <-. now left.
  - unfold createBufferFrom in Hinit.
    set (zeros := repeat zero (Z.to_nat block_size)) in *.
    pose proof (call_status (CreateBuffer block_size)
                  (store (next_buffer (queue st2)) 0 block_size zeros) 1
                  (queue st2)) as Hst.
    pose proof (call_next_buffer_ok (CreateBuffer block_size)
                  (store (next_buffer (queue st2)) 0 block_size zeros) 1
                  (queue st2)) as Hnext.
    pose proof (call_contents_ok (CreateBuffer block_size)
                  (store (next_buffer (queue st2)) 0 block_size zeros) 1
                  (queue st2)) as Hmem.
    destruct (call _ _ _ _ _) as [r d'] eqn:Ecall.
    cbn [fst snd] in *.
    destruct (r =? CL_SUCCESS) eqn:Er; cbn [negb] in Hinit; [|discriminate].
    apply Z.eqb_eq in Er. injection Hinit as <-.
    right. cbn [zero_buffer queue set_zero_buffer set_queue].
    rewrite Hnext, Hmem by congruence. split; [lia|].
    intros q Hq. unfold store, region. rewrite Nat.eqb_refl.
    replace (0 <=? q) with true by (symmetry; apply Z.leb_le; lia).
    replace (q <? 0 + block_size) with true
      by (symmetry; apply Z.ltb_lt; lia).
    cbn [andb]. subst zeros. apply nth_repeat_zero.
Qed.

(** X22. What a successful probe establishes: when [is_available] turns
    [ready] from unset to set, the device either fills directly or holds
    a zero buffer with a block of zero bytes; so every buffer that
    [increase_pool] adds to the pool afterwards is zero from end to end
    when it returns. *)
Theorem is_available_prepares_clearing (platforms : list platform)
        (g g' : backend) (size : Z) :
  ready g = false ->
  is_available block_size cl_version_1_2 platforms g = (true, g') ->
  int_range (total_blocks (globals g')) ->
  ready g' = true
  /\ zero_source_kept block_size (globals g')
  /\ forall b p,
       In b (pool (snd (increase_pool block_size size (globals g')))) ->
       ~ In b (pool (globals g')) ->
       0 <= p < block_size ->
       contents (queue (snd (increase_pool block_size size (globals g'))))
                b p = zero.
Proof.
  intros Hr Havail Hrange. unfold is_available, init_opencl in Havail.
  rewrite Hr in Havail.
  assert (Hsrc : ready g' = true /\ zero_source_kept block_size (globals g')).
  { destruct (Z.of_nat (List.length platforms) =? 0).
    - discriminate.
    - destruct (init_platforms block_size cl_version_1_2 platforms
                               (globals g)) as [r st'] eqn:Einit.
      injection Havail as -> <-. cbn [ready globals]. split; [reflexivity|].
      eapply init_platforms_zero_source; eassumption. }
  destruct Hsrc as [Hready Hsrc]. split; [exact Hready|].
  split; [exact Hsrc|]. unfold increase_pool.
  destruct (increase_pool_loop_general block_size block_size_range
              (Z.to_nat (block_count block_size size)) 0
              (block_count block_size size) (globals g') Hrange)
    as (k & st' & _ & Eloop & Hpool & _ & _ & _ & Hnew).
  rewrite Eloop. cbn [snd]. intros b p Hin Hnot Hp. rewrite Hpool in Hin.
  apply in_app_or in Hin as [Hin|Hin]; [contradiction|].
  apply fresh_buffers_bounds in Hin. apply Hnew; [exact Hsrc | lia | exact Hp].
Qed.
End BackendFacts.

(** ** The further statements at concrete inputs *)

Lemma index_find_answers_witness :
  fst (Index.index_find (Some sample_table) "/docs/a.txt"
                        Index.entry_filter.file) <> 0.
Proof.
  destruct (index_find_answers sample_table "/docs/a.txt"
              Index.entry_filter.file) as [Hzero _].
  - repeat constructor.
  - intros H. apply Hzero in H. discriminate H.
Defined.

Lemma index_find_not_found_witness :
  fst (Index.index_find (Some sample_table) "/docs/b.txt/x"
                        Index.entry_filter.all) = - Index.ENOENT
  /\ lookup_names (snd (Index.index_find (Some sample_table) "/docs/b.txt/x"
                                         Index.entry_filter.all))
     = [""; "docs"]%string ++ ["b.txt"%string].
Proof.
  apply (index_find_not_found sample_table "/docs/b.txt/x"
           Index.entry_filter.all [""; "docs"]%string ["x"%string]
           "b.txt" 2).
  - reflexivity.
  - right. exists (nth 1 sample_table Index.no_row).
    split; [walk_table | split; reflexivity].
  - reflexivity.
Defined.

Lemma sample_table_unique_siblings : unique_siblings sample_table.
Proof.
  intros r r' Hr Hr' Hp Hn. cbn in Hr, Hr'.
  destruct Hr as [<-|[<-|[<-|[]]]]; destruct Hr' as [<-|[<-|[<-|[]]]];
    try reflexivity; discriminate.
Defined.

Lemma index_find_child_witness :
  fst (Index.index_find (Some sample_table) "/docs/a.txt"
                        Index.entry_filter.all) = 3.
Proof.
  apply (index_find_child sample_table "/docs" "/docs/a.txt" 2
           (nth 2 sample_table Index.no_row)).
  - repeat constructor.
  - exact sample_table_unique_siblings.
  - right. exists (nth 1 sample_table Index.no_row).
    split; [walk_table | split; reflexivity].
  - cbn. auto.
  - reflexivity.
  - reflexivity.
Defined.

Lemma fresh_index_only_root_witness :
  fst (Index.index_find (fst (Index.vram_init 0 0 0 1700000000)) "/docs"
                        Index.entry_filter.all) = - Index.ENOENT
  /\ fst (Index.vram_readdir (fst (Index.vram_init 0 0 0 1700000000)) "/" [])
     = (0, [] ++ ["."; ".."]%string).
Proof.
  apply (fresh_index_only_root 1700000000 "/docs" Index.entry_filter.all []);
    discriminate.
Defined.

Lemma vram_readdir_lists_children_witness :
  fst (Index.vram_readdir (Some sample_table) "/docs" [])
  = (0, ["."; ".."; "a.txt"]%string)
  /\ fst (Index.vram_readdir (Some sample_table) "/docs/a.txt" [])
     = (- Index.ENOTDIR, []).
Proof.
  destruct (vram_readdir_lists_children sample_table "/docs" []
              (nth 1 sample_table Index.no_row)) as [Hdir _];
    [repeat constructor | walk_table|].
  destruct (vram_readdir_lists_children sample_table "/docs/a.txt" []
              (nth 2 sample_table Index.no_row)) as [_ Hfile];
    [repeat constructor | walk_table|].
  split; [exact (proj1 (Hdir eq_refl)) | exact (Hfile eq_refl)].
Defined.

Lemma vram_open_answers_witness :
  fst (Index.vram_open (Some sample_table) "/docs/a.txt" 577)
  = - Index.EACCES
  /\ fst (Index.vram_open (Some sample_table) "/docs" 0) = - Index.EISDIR.
Proof.
  destruct (vram_open_answers sample_table "/docs/a.txt" 577)
    as (_ & Hacc & _); [repeat constructor | discriminate|].
  destruct (vram_open_answers sample_table "/docs" 0)
    as (_ & _ & Hdir & _); [repeat constructor | discriminate|].
  split.
  - apply Hacc. exists (nth 2 sample_table Index.no_row).
    split; [walk_table | split; [reflexivity | discriminate]].
  - apply Hdir. exists (nth 1 sample_table Index.no_row).
    split; [walk_table | reflexivity].
Defined.

Lemma vram_getattr_answers_witness :
  snd (fst (Index.vram_getattr 1000 100 (Some sample_table) "/nope"
                               sample_stat)) = sample_stat.
Proof.
  destruct (vram_getattr_answers 1000 100 sample_table "/nope" sample_stat)
    as (_ & _ & Hkeep & _); [repeat constructor|].
  apply Hkeep. vm_compute. discriminate.
Defined.

Lemma operations_agree_on_kind_witness :
  fst (fst (Index.vram_readdir (Some sample_table) "/docs" [])) = 0
  /\ fst (Index.vram_open (Some sample_table) "/docs/a.txt" Index.O_RDONLY)
     = 0.
Proof.
  assert (Hkey : primary_key sample_table)
    by (unfold primary_key; repeat constructor; simpl; intuition lia).
  assert (Hpos : positive_ids sample_table) by (repeat constructor).
  destruct (operations_agree_on_kind 1000 100 sample_table "/docs"
              sample_stat [] Hpos Hkey) as [Hdir _]; [discriminate|].
  destruct (operations_agree_on_kind 1000 100 sample_table "/docs/a.txt"
              sample_stat [] Hpos Hkey) as [_ Hfile]; [discriminate|].
  split; [apply Hdir | apply Hfile]; split; reflexivity.
Defined.

Lemma increase_pool_accounts_witness :
  exists k : nat,
    Z.of_nat k <= Memory.block_count 131072 300000
    /\ fst (Memory.increase_pool 131072 300000
              (sample_state true [0; 0; 0; 0; -4]))
       = Z.of_nat k * 131072
    /\ Memory.pool (snd (Memory.increase_pool 131072 300000
                           (sample_state true [0; 0; 0; 0; -4])))
       = Memory.pool (sample_state true [0; 0; 0; 0; -4])
         ++ fresh_buffers 3%nat k
    /\ Memory.pool_size (snd (Memory.increase_pool 131072 300000
                                (sample_state true [0; 0; 0; 0; -4])))
       = Memory.pool_size (sample_state true [0; 0; 0; 0; -4]) + Z.of_nat k.
Proof.
  apply (increase_pool_accounts 131072).
  - unfold INT_MAX; lia.
  - vm_compute. discriminate.
  - unfold int_range, INT_MAX; simpl; lia.
  - vm_compute. discriminate.
Defined.

Lemma increase_pool_memory_witness :
  let st := sample_state false [] in
  let st_zero :=
    Memory.set_queue
      {| Device.contents := fun x p => if Nat.eqb x 0 then Device.zero
                                       else x5a;
         Device.next_buffer := 3%nat; Device.issued := [];
         Device.faults := []; Device.callbacks := [] |} st in
  let st' := snd (Memory.increase_pool 131072 300000 st_zero) in
  Device.contents (Memory.queue st') 1%nat 0 = x5a
  /\ Device.contents (Memory.queue st') 4%nat 131071 = Device.zero.
Proof.
  intros st st_zero st'.
  destruct (increase_pool_memory 131072 ltac:(unfold INT_MAX; lia)
              300000 st_zero) as [Hold Hnew].
  - unfold int_range, INT_MAX; simpl; lia.
  - split.
    + apply (Hold 1%nat 0). simpl. lia.
    + apply (Hnew ltac:(right; split; [simpl; lia | reflexivity])
                  4%nat 131071).
      * vm_compute. auto.
      * simpl. intuition lia.
      * lia.
Defined.

Lemma allocate_release_round_trip_witness :
  Memory.block_delete
    {| Memory.buffer := 2%nat; Memory.dirty := true;
       Memory.last_write := None |}
    (Memory.set_pool [1%nat] (sample_state true []))
  = sample_state true []
  /\ exists b',
       Memory.allocate
         (Memory.block_delete
            {| Memory.buffer := 7%nat; Memory.dirty := false;
               Memory.last_write := Some 4%nat |} (sample_state true []))
       = (Some b', sample_state true [])
       /\ Memory.buffer b' = 7%nat.
Proof.
  destruct (allocate_release_round_trip (sample_state true [])
              {| Memory.buffer := 7%nat; Memory.dirty := false;
                 Memory.last_write := Some 4%nat |})
    as (Hrelease & Halloc).
  split; [apply Hrelease; reflexivity | exact Halloc].
Defined.

Lemma run_keeps_ownership_witness :
  let s' := Client.run 131072 sample_ops sample_system in
  NoDup (Memory.pool (Client.globals s')) /\ NoDup (Client.held s')
  /\ forall b, In b (Memory.pool (Client.globals s')) ->
               ~ In b (Client.held s').
Proof.
  apply (run_keeps_ownership 131072).
  - unfold INT_MAX; lia.
  - unfold Client.owned. cbn.
    split; [constructor|]. split; [constructor|].
    split; [intros b []|intros b [[]|[]]].
Defined.

Lemma run_keeps_count_witness :
  let s' := Client.run 131072 sample_ops sample_system in
  Memory.pool_size (Client.globals s')
  = Memory.pool_available (Client.globals s')
    + Z.of_nat (List.length (Client.live s')).
Proof.
  apply (run_keeps_count 131072).
  - unfold INT_MAX; lia.
  - split; [reflexivity | simpl; lia].
  - vm_compute. discriminate.
Defined.

Lemma read_clean_block_witness :
  firstn (Z.to_nat 2)
    (fst (Memory.read 131072
            {| Memory.buffer := 1%nat; Memory.dirty := false;
               Memory.last_write := None |} 4 2 [x07; x07; x07]
            (sample_state true [])))
  = [x5a; x5a]
  /\ fst (Memory.read 131072
            {| Memory.buffer := 1%nat; Memory.dirty := false;
               Memory.last_write := None |} (-1) 2 [x07; x07; x07]
            (sample_state true []))
     = [x07; x07; x07].
Proof.
  destruct (read_clean_block 131072 ltac:(unfold INT_MAX; lia) 1%nat None
              4 2 [x07; x07; x07] (sample_state true [])) as (Hin & _ & _).
  destruct (read_clean_block 131072 ltac:(unfold INT_MAX; lia) 1%nat None
              (-1) 2 [x07; x07; x07] (sample_state true []))
    as (_ & Hout & _).
  split.
  - apply Hin; try lia. reflexivity.
  - apply Hout; [left; lia | lia].
Defined.

Lemma write_then_read_witness :
  let b := {| Memory.buffer := 2%nat; Memory.dirty := true;
              Memory.last_write := None |} in
  let w := Memory.write 131072 b 4 3 [x01; x02; x03; x04] false
                        (sample_state true []) in
  firstn (Z.to_nat 3)
         (fst (Memory.read 131072 (fst w) 4 3 [x07; x07; x07; x07] (snd w)))
  = firstn (Z.to_nat 3) [x01; x02; x03; x04].
Proof.
  intros b w.
  apply (write_then_read 131072 ltac:(unfold INT_MAX; lia) b 4 3
           [x01; x02; x03; x04] [x07; x07; x07; x07] false
           (sample_state true [])); try lia.
  - simpl. lia.
  - intros k _. destruct k; reflexivity.
Defined.

Lemma write_touches_only_its_range_witness :
  let b := {| Memory.buffer := 2%nat; Memory.dirty := false;
              Memory.last_write := None |} in
  let st' := snd (Memory.write 131072 b 4 3 [x01; x02; x03] true
                               (sample_state true [])) in
  Device.contents (Memory.queue st') 1%nat 5 = x5a
  /\ Device.contents (Memory.queue st') 2%nat 7 = x5a.
Proof.
  intros b st'.
  destruct (write_touches_only_its_range 131072 b 4 3 [x01; x02; x03] true
              (sample_state true [])) as [Hother Hrange].
  split.
  - apply (Hother 1%nat 5). discriminate.
  - apply (Hrange eq_refl 7). reflexivity.
Defined.

Lemma write_refused_witness :
  let b := {| Memory.buffer := 2%nat; Memory.dirty := true;
              Memory.last_write := None |} in
  let w := Memory.write 131072 b 8 131072 [x01; x02; x03] true
                        (sample_state true []) in
  Memory.dirty (fst w) = false /\ Memory.last_write (fst w) = None
  /\ Device.callbacks (Memory.queue (snd w)) = []
  /\ firstn 2 (fst (Memory.read 131072 (fst w) 0 2 [x07; x07] (snd w)))
     = [x5a; x5a].
Proof.
  intros b w.
  destruct (write_refused 131072 b 8 131072 [x01; x02; x03] true
              (sample_state true []))
    as (Hdirty & Hlast & Hcb & Hmem & _).
  - reflexivity.
  - left. reflexivity.
  - split; [exact Hdirty|]. split; [exact Hlast|]. split; [exact Hcb|].
    reflexivity.
Defined.

Lemma is_available_first_gpu_witness :
  Backend.is_available 131072 true
    (sample_platforms
     ++ [{| Backend.gpu_devices := [sample_device [-4]];
            Backend.version := 65538 |}])
    sample_backend
  = Backend.is_available 131072 true
      [nth 1 sample_platforms
           {| Backend.gpu_devices := []; Backend.version := 0 |}]
      sample_backend.
Proof.
  destruct (is_available_first_gpu 131072 true
              [nth 0 sample_platforms
                   {| Backend.gpu_devices := []; Backend.version := 0 |}]
              [{| Backend.gpu_devices := [sample_device [-4]];
                  Backend.version := 65538 |}]
              (nth 1 sample_platforms
                   {| Backend.gpu_devices := []; Backend.version := 0 |})
              sample_backend) as [_ Hprobe].
  destruct Hprobe as [Hfirst _]; [reflexivity | repeat constructor|].
  apply Hfirst. discriminate.
Defined.

Lemma is_available_prepares_clearing_witness :
  let g' := snd (Backend.is_available 131072 true sample_platforms
                                      sample_backend) in
  Backend.ready g' = true
  /\ zero_source_kept 131072 (Backend.globals g')
  /\ Memory.zero_buffer (Backend.globals g') = 3%nat.
Proof.
  intros g'.
  destruct (is_available_prepares_clearing 131072 true
              ltac:(unfold INT_MAX; lia) sample_platforms sample_backend g'
              300000) as (Hready & Hsrc & _).
  - reflexivity.
  - reflexivity.
  - unfold int_range, INT_MAX; simpl; lia.
  - split; [exact Hready|]. split; [exact Hsrc | reflexivity].
Defined.
